(** * ClipRelay client: extraction pipeline and reconnecting session

    A shallow embedding of [client/src/cp_client.py]: the pure function
    [extract_code] (with the fragment of Python's [re] engine its three
    patterns use) and the coroutine [ClientRunner.run] as a machine that
    is driven by what the event loop delivers to it. *)

From Stdlib Require Import List NArith ZArith Bool Arith Lia String Ascii.
Import ListNotations.

(** ** Python strings *)

(** A [str] is a sequence of Unicode code points. *)
Definition pystr := list N.

Module Utf8.

(** Source literals are written as UTF-8 and decoded to code points, so
    that patterns and test inputs can be read next to the Python file. *)
Definition byte_of (a : ascii) : N := N_of_ascii a.

Fixpoint bytes (s : string) : list N :=
  match s with
  | EmptyString => []
  | String a r => byte_of a :: bytes r
  end.

Definition cont (b : N) : N := (b - 128)%N.

Fixpoint decode (bs : list N) : pystr :=
  match bs with
  | [] => []
  | b :: r =>
    if (b <? 128)%N then b :: decode r
    else if (b <? 224)%N then
      match r with
      | b1 :: r1 => ((b - 192) * 64 + cont b1)%N :: decode r1
      | _ => []
      end
    else if (b <? 240)%N then
      match r with
      | b1 :: b2 :: r2 =>
        ((b - 224) * 4096 + cont b1 * 64 + cont b2)%N :: decode r2
      | _ => []
      end
    else
      match r with
      | b1 :: b2 :: b3 :: r3 =>
        ((b - 240) * 262144 + cont b1 * 4096 + cont b2 * 64 + cont b3)%N
          :: decode r3
      | _ => []
      end
  end.

End Utf8.

Definition py (s : string) : pystr := Utf8.decode (Utf8.bytes s).

(** ** The interpreter's character tables

    CPython's Unicode database is not repository code.  The client
    depends on three of its classifications, taken here as an interface:
    the decimal digits ([\d] and [\D] of [re], on [str] patterns), the
    white space ([str.strip] and [\s]), and which text characters a
    pattern literal matches under [re.IGNORECASE]. *)
Class Unicode := {
  isdecimal : N -> bool;
  isspace : N -> bool;
  iequal : N -> N -> bool;
  space_not_decimal : forall c, isspace c = true -> isdecimal c = false
}.

(** ** The fragment of [re] used by the client *)

Inductive category :=
| DIGIT          (* \d *)
| NOT_DIGIT      (* \D *)
| SPACE          (* \s *)
| HYPHEN_SPACE.  (* [-\s] *)

Inductive regex :=
| Empty
| Literal (c : N)
| OneOf (k : category)
| Concat (r1 r2 : regex)
| Branch (r1 r2 : regex)                           (* r1|r2 *)
| Optional (r : regex)                             (* (?:r)? *)
| MaxRepeat (lo : nat) (hi : option nat) (k : category)  (* k{lo,hi}, k* *)
| Group (r : regex)                                (* (r), group 1 *)
| AssertNotBehind (k : category)                   (* (?<!k) *)
| AssertNotAhead (k : category).                   (* (?!k) *)

Definition span := (nat * nat)%type.

(** A match object: the span of the whole match and of group 1. *)
Record Match := { m_start : nat; m_end : nat; m_group1 : option span }.

Definition slice (s : pystr) (a b : nat) : pystr := firstn (b - a) (skipn a s).

Definition hyphen : N := 45%N.

Section Engine.
Context {U : Unicode}.

Definition in_category (k : category) (c : N) : bool :=
  match k with
  | DIGIT => isdecimal c
  | NOT_DIGIT => negb (isdecimal c)
  | SPACE => isspace c
  | HYPHEN_SPACE => (c =? hyphen)%N || isspace c
  end.

Definition literal_eq (ignorecase : bool) (p c : N) : bool :=
  if ignorecase then iequal p c else (p =? c)%N.

(** The text character at index [i] is in category [k]. *)
Definition at_in (k : category) (s : pystr) (i : nat) : bool :=
  match nth_error s i with
  | Some c => in_category k c
  | None => false
  end.

(** The character just before index [i] is in category [k]. *)
Definition behind_in (k : category) (s : pystr) (i : nat) : bool :=
  match i with
  | O => false
  | S j => at_in k s j
  end.

(** How many characters from the head of [l] are in [k], at most [hi]. *)
Fixpoint count_in (k : category) (hi : option nat) (l : pystr) : nat :=
  match l with
  | [] => 0
  | c :: l' =>
    if in_category k c then
      match hi with
      | Some 0 => 0
      | Some (S h) => S (count_in k (Some h) l')
      | None => S (count_in k None l')
      end
    else 0
  end.

(** Greedy repetition gives back one character at a time: the
    continuation is tried with [n], [n-1], ... down to [lo] repetitions. *)
Fixpoint give_back {A : Type} (lo n : nat) (k : nat -> option A) : option A :=
  if n <? lo then None
  else
    match k n with
    | Some x => Some x
    | None =>
      match n with
      | O => None
      | S n' => give_back lo n' k
      end
    end.

(** The backtracking matcher, in continuation-passing style: [exec r i g k]
    matches [r] at index [i] with group 1 currently [g] and hands the end
    index and the group to [k]; alternatives are tried in priority order
    until [k] accepts. *)
Fixpoint exec {A : Type} (ignorecase : bool) (s : pystr) (r : regex)
    (i : nat) (g : option span) (k : nat -> option span -> option A)
    : option A :=
  match r with
  | Empty => k i g
  | Literal p =>
    match nth_error s i with
    | Some c => if literal_eq ignorecase p c then k (S i) g else None
    | None => None
    end
  | OneOf c => if at_in c s i then k (S i) g else None
  | Concat r1 r2 =>
    exec ignorecase s r1 i g (fun j g' => exec ignorecase s r2 j g' k)
  | Branch r1 r2 =>
    match exec ignorecase s r1 i g k with
    | Some x => Some x
    | None => exec ignorecase s r2 i g k
    end
  | Optional r1 =>
    match exec ignorecase s r1 i g k with
    | Some x => Some x
    | None => k i g
    end
  | MaxRepeat lo hi c =>
    give_back lo (count_in c hi (skipn i s)) (fun n => k (i + n) g)
  | Group r1 => exec ignorecase s r1 i g (fun j _ => k j (Some (i, j)))
  | AssertNotBehind c => if behind_in c s i then None else k i g
  | AssertNotAhead c => if at_in c s i then None else k i g
  end.

(** [re.search]: the first start index, from the left, at which the
    pattern matches.  [n] counts the start indices still to try. *)
Fixpoint search_from (ignorecase : bool) (r : regex) (s : pystr)
    (n i : nat) : option Match :=
  match n with
  | O => None
  | S n' =>
    match exec ignorecase s r i None
            (fun j g => Some {| m_start := i; m_end := j; m_group1 := g |}) with
    | Some m => Some m
    | None => search_from ignorecase r s n' (S i)
    end
  end.

Definition search (ignorecase : bool) (r : regex) (s : pystr) : option Match :=
  search_from ignorecase r s (S (List.length s)) 0.

(** [m.group(1)].  Python gives [None] for a group that took no part in
    the match; every pattern of the client sets group 1 whenever it
    matches (lemma [find_code_group] below), so that case does not arise. *)
Definition group1 (s : pystr) (m : Match) : pystr :=
  match m_group1 m with
  | Some (a, b) => slice s a b
  | None => []
  end.

(** ** [str.strip] *)

Fixpoint lstrip (s : pystr) : pystr :=
  match s with
  | [] => []
  | c :: s' => if isspace c then lstrip s' else s
  end.

Definition rstrip (s : pystr) : pystr := rev (lstrip (rev s)).

Definition strip (s : pystr) : pystr := rstrip (lstrip s).

(** ** The patterns of [extract_code] *)

Definition lit (s : string) : regex :=
  fold_right (fun c r => Concat (Literal c) r) Empty (py s).

Fixpoint branches (rs : list regex) : regex :=
  match rs with
  | [] => Empty
  | [r] => r
  | r :: rs' => Branch r (branches rs')
  end.

Fixpoint concat (rs : list regex) : regex :=
  match rs with
  | [] => Empty
  | r :: rs' => Concat r (concat rs')
  end.

Definition star (k : category) : regex := MaxRepeat 0 None k.

(** [(?:验证码|校验码|动态码|短信码|登录码|提取码|otp|passcode|verification\s*code|
      security\s*code|one[-\s]*time\s*(?:password|passcode)?|code)] *)
Definition keyword : regex :=
  branches
    [ lit "验证码"; lit "校验码"; lit "动态码"; lit "短信码"; lit "登录码";
      lit "提取码";
      lit "otp"; lit "passcode";
      concat [lit "verification"; star SPACE; lit "code"];
      concat [lit "security"; star SPACE; lit "code"];
      concat [lit "one"; star HYPHEN_SPACE; lit "time"; star SPACE;
              Optional (Branch (lit "password") (lit "passcode"))];
      lit "code" ].

(** [\D{0,20}] *)
Definition gap : regex := MaxRepeat 0 (Some 20) NOT_DIGIT.

(** [(?<!\d)(\d{4,8})(?!\d)] *)
Definition code : regex :=
  concat [AssertNotBehind DIGIT; Group (MaxRepeat 4 (Some 8) DIGIT);
          AssertNotAhead DIGIT].

Definition keyword_then_code : regex := concat [keyword; gap; code].
Definition code_then_keyword : regex := concat [code; gap; keyword].

(** The three searches of [extract_code], on the stripped text: the
    match object [m] the function ends with. *)
Definition find_code (text : pystr) : option Match :=
  let m := search true keyword_then_code text in
  let m := match m with
           | None => search true code_then_keyword text
           | Some _ => m
           end in
  match m with
  | None => search false code text
  | Some _ => m
  end.

(** [extract_code] on a [str] argument, where [text or ""] is [text]. *)
Definition extract_code (text : pystr) : pystr :=
  let text := strip text in
  match text with
  | [] => []
  | _ =>
    match find_code text with
    | Some m => group1 text m
    | None => text
    end
  end.

End Engine.

(** ** What a match is

    The matcher above is the program; the relation below says which
    spans a pattern can match at all, whatever the priorities. *)

Definition within (hi : option nat) (n : nat) : Prop :=
  match hi with
  | Some h => n <= h
  | None => True
  end.

Section MatchRelation.
Context {U : Unicode}.
Variable ignorecase : bool.
Variable s : pystr.

Inductive Matches : regex -> nat -> option span -> nat -> option span -> Prop :=
| M_Empty i g : Matches Empty i g i g
| M_Literal p c i g :
    nth_error s i = Some c -> literal_eq ignorecase p c = true ->
    Matches (Literal p) i g (S i) g
| M_OneOf k i g : at_in k s i = true -> Matches (OneOf k) i g (S i) g
| M_Concat r1 r2 i g j g1 l g2 :
    Matches r1 i g j g1 -> Matches r2 j g1 l g2 ->
    Matches (Concat r1 r2) i g l g2
| M_BranchL r1 r2 i g j g1 :
    Matches r1 i g j g1 -> Matches (Branch r1 r2) i g j g1
| M_BranchR r1 r2 i g j g1 :
    Matches r2 i g j g1 -> Matches (Branch r1 r2) i g j g1
| M_OptionalSome r i g j g1 :
    Matches r i g j g1 -> Matches (Optional r) i g j g1
| M_OptionalNone r i g : Matches (Optional r) i g i g
| M_MaxRepeat lo hi k i g n :
    lo <= n -> within hi n ->
    (forall p, p < n -> at_in k s (i + p) = true) ->
    Matches (MaxRepeat lo hi k) i g (i + n) g
| M_Group r i g j g1 :
    Matches r i g j g1 -> Matches (Group r) i g j (Some (i, j))
| M_AssertNotBehind k i g :
    behind_in k s i = false -> Matches (AssertNotBehind k) i g i g
| M_AssertNotAhead k i g :
    at_in k s i = false -> Matches (AssertNotAhead k) i g i g.

End MatchRelation.

(** The pattern has a capturing group. *)
Fixpoint has_group (r : regex) : bool :=
  match r with
  | Group _ => true
  | Concat r1 r2 | Branch r1 r2 => has_group r1 || has_group r2
  | Optional r1 => has_group r1
  | _ => false
  end.

(** ** Digit runs *)

Section RunDefs.
Context {U : Unicode}.

(** [s[i:i+n]] is a run of 4 to 8 decimal digits with no digit on either
    side of it. *)
Definition isolated_run (s : pystr) (i n : nat) : bool :=
  (4 <=? n) && (n <=? 8) && forallb (at_in DIGIT s) (seq i n)
  && negb (behind_in DIGIT s i) && negb (at_in DIGIT s (i + n)).

(** [s[i:i+n]] is a run of 4 to 8 decimal digits that touches another
    digit: a piece of a longer number. *)
Definition embedded_run (s : pystr) (i n : nat) : bool :=
  (4 <=? n) && (n <=? 8) && forallb (at_in DIGIT s) (seq i n)
  && (behind_in DIGIT s i || at_in DIGIT s (i + n)).

(** All isolated runs of [s], as (start, length), from the left. *)
Definition isolated_runs (s : pystr) : list (nat * nat) :=
  filter (fun '(i, n) => isolated_run s i n)
         (list_prod (seq 0 (List.length s)) (seq 4 5)).

(** [str.isdecimal]: not empty and decimal digits only. *)
Definition str_isdecimal (s : pystr) : bool :=
  negb (Nat.eqb (List.length s) 0) && forallb isdecimal s.

(** Number of characters [strip] removes on the left. *)
Definition lead (s : pystr) : nat := List.length s - List.length (lstrip s).

Definition no_digit (l : pystr) : Prop :=
  forallb (fun c => negb (isdecimal c)) l = true.

End RunDefs.

(** ** Python objects, as far as the client looks at them *)

(** The client asks an object four things: whether it is a [str],
    whether it is a [dict] (the only built-in type with [.get] that
    [json.loads] returns), its truth value, and what [str()] makes of it.
    Everything that is neither a [str] nor a [dict] ([None], numbers,
    booleans, lists) is kept as its truth value and its [str()]; byte
    strings are left out. *)
#[warnings="-register-all"]
Inductive pyobj :=
| PyStr (s : pystr)
| PyDict (items : list (pystr * pyobj)) (shown : pystr)
| PyOther (truth : bool) (shown : pystr).

Definition py_None : pyobj := PyOther false (py "None").

Inductive except (A : Type) :=
| Ok (a : A)
| Raised.
Arguments Ok {A} a.
Arguments Raised {A}.

Definition truth (o : pyobj) : bool :=
  match o with
  | PyStr s => negb (Nat.eqb (List.length s) 0)
  | PyDict items _ => negb (Nat.eqb (List.length items) 0)
  | PyOther t _ => t
  end.

(** [a or b] *)
Definition py_or (a b : pyobj) : pyobj := if truth a then a else b.

(** [str(o)] *)
Definition py_str (o : pyobj) : pystr :=
  match o with
  | PyStr s => s
  | PyDict _ shown => shown
  | PyOther _ shown => shown
  end.

Fixpoint str_eqb (a b : pystr) : bool :=
  match a, b with
  | [], [] => true
  | x :: a', y :: b' => (x =? y)%N && str_eqb a' b'
  | _, _ => false
  end.

(** [d.get(key, default)] *)
Fixpoint dict_get (items : list (pystr * pyobj)) (key : pystr) (default : pyobj)
    : pyobj :=
  match items with
  | [] => default
  | (k, v) :: rest => if str_eqb k key then v else dict_get rest key default
  end.

Section Dynamic.
Context {U : Unicode}.

(** [extract_code] on the objects of [pyobj]: [(text or "")] and then
    [.strip()], which a [dict] and the objects of [PyOther] ([None],
    numbers, booleans, lists) do not have.  [bytes] and [bytearray],
    which have a [strip] of their own, are not among these objects. *)
Definition extract_code_any (text : pyobj) : except pystr :=
  match py_or text (PyStr []) with
  | PyStr s => Ok (extract_code s)
  | _ => Raised
  end.

(** The keyword pattern matches [s[a:b]]. *)
Definition keyword_at (s : pystr) (a b : nat) : bool :=
  match exec true s keyword a None
          (fun j _ => if Nat.eqb j b then Some tt else None) with
  | Some _ => true
  | None => false
  end.

(** [s[a:b]] is at most 20 characters, none of them a digit. *)
Definition short_gap (s : pystr) (a b : nat) : bool :=
  (a <=? b) && (b - a <=? 20) && forallb (at_in NOT_DIGIT s) (seq a (b - a)).

(** The run [s[i:i+n]] has a keyword within 20 non-digit characters,
    before or after it. *)
Definition near_keyword (s : pystr) (i n : nat) : bool :=
  existsb (fun '(a, b) =>
             keyword_at s a b && (short_gap s b i || short_gap s (i + n) a))
          (list_prod (seq 0 (S (List.length s))) (seq 0 (S (List.length s)))).

(** The span of the argument that [extract_code] returns when one of its
    patterns matches: group 1 of [m], counted from the start of the
    unstripped text. *)
Definition selected_span (text : pystr) : option span :=
  match find_code (strip text) with
  | Some m =>
    match m_group1 m with
    | Some (a, b) => Some (lead text + a, lead text + b)
    | None => None
    end
  | None => None
  end.

End Dynamic.

(** ** [ClientRunner.run]

    The coroutine is followed from one suspension point to the next.  An
    event is what the outside delivers at such a point: the result of
    [websockets.connect], the next item of [async for msg in ws], the
    return of [stop_event.wait], or, at any time, another thread calling
    [ClientRunner.stop].  [json.loads] and [pyperclip.copy] are library
    calls: a frame event carries what they answer for that frame.

    Not modelled: log lines; exceptions that are not [Exception]
    (cancellation, keyboard interrupt); an exception out of [log],
    [asyncio.to_thread] or the exit of [async with]; binary frames. *)

Inductive status :=
| idle | connecting | connected | disconnected | error | stopped.

Inductive point :=
| NotStarted    (* run() not yet called *)
| Connecting    (* in websockets.connect *)
| Receiving     (* in async for msg in ws *)
| Sleeping      (* in stop_event.wait(retry) *)
| Returned.     (* run() has returned *)

Record runner := {
  stop_event : bool;    (* self.stop_event.is_set() *)
  ws : bool;            (* self.ws is not None *)
  _status : status;     (* self._status *)
  retry : Z;            (* the local variable of run *)
  pc : point
}.

Inductive effect :=
| SetStatus (s : status)     (* self.set_status(s) *)
| Connect                    (* a call of websockets.connect *)
| Copy (code : pystr)        (* pyperclip.copy(code) returned *)
| Wait (seconds : Z).        (* stop_event.wait(seconds) *)

Inductive event :=
| EvStop                     (* stop(): self.stop_event.set() *)
| EvStart                    (* run() is called *)
| EvConnected                (* websockets.connect succeeded *)
| EvConnectFailed            (* websockets.connect raised *)
| EvFrame (msg : pystr)      (* the next msg of ws, with *)
          (decoded : option pyobj)  (* json.loads(msg), None if it raises *)
          (copied : bool)           (* pyperclip.copy returns / raises *)
| EvClosed                   (* ws is exhausted: closed normally *)
| EvBroken                   (* the iteration over ws raised *)
| EvWoken.                   (* stop_event.wait returned *)

Definition ClientRunner : runner :=
  {| stop_event := false; ws := false; _status := idle; retry := 1;
     pc := NotStarted |}.

Definition set_stop (r : runner) : runner :=
  {| stop_event := true; ws := ws r; _status := _status r; retry := retry r;
     pc := pc r |}.

Definition set_ws (r : runner) (w : bool) : runner :=
  {| stop_event := stop_event r; ws := w; _status := _status r;
     retry := retry r; pc := pc r |}.

Definition set_retry (r : runner) (n : Z) : runner :=
  {| stop_event := stop_event r; ws := ws r; _status := _status r;
     retry := n; pc := pc r |}.

(** [self.set_status(s)], and on to the suspension point [p]. *)
Definition set_status (r : runner) (s : status) (p : point) : runner :=
  {| stop_event := stop_event r; ws := ws r; _status := s; retry := retry r;
     pc := p |}.

Section Run.
Context {U : Unicode}.

(** The [try] of the receive loop:
    [data = json.loads(msg); raw = str(data.get("text", ""))], and
    [raw = str(msg)] when either call raises. *)
Definition frame_text (msg : pystr) (decoded : option pyobj) : pystr :=
  match decoded with
  | Some (PyDict items _) => py_str (dict_get items (py "text") (PyStr []))
  | Some _ => msg
  | None => msg
  end.

(** Leaving the [while] loop: [self.set_status("stopped")]. *)
Definition finish (r : runner) : runner * list effect :=
  (set_status r stopped Returned, [SetStatus stopped]).

(** [self.set_status(s); await asyncio.to_thread(self.stop_event.wait, retry)] *)
Definition back_off (r : runner) (s : status) : runner * list effect :=
  (set_status r s Sleeping, [SetStatus s; Wait (retry r)]).

(** The [while] test and the start of its body, up to the connect. *)
Definition loop (r : runner) : runner * list effect :=
  if stop_event r then finish r
  else (set_status r connecting Connecting, [SetStatus connecting; Connect]).

(** [except Exception as e:] *)
Definition handler (r : runner) : runner * list effect :=
  if stop_event r then finish r
  else back_off (set_ws r false) error.

(** After the [async for]: [self.ws = None], the stop test, and the
    "closed by server" branch. *)
Definition after_for (r : runner) : runner * list effect :=
  let r := set_ws r false in
  if stop_event r then finish r
  else back_off r disconnected.

(** The body of the [async for], for one message. *)
Definition on_frame (r : runner) (msg : pystr) (decoded : option pyobj)
    (copied : bool) : runner * list effect :=
  if stop_event r then after_for r
  else
    let raw := frame_text msg decoded in
    match extract_code_any (PyStr raw) with
    | Raised => handler r
    | Ok code =>
      if truth (PyStr code) then
        if copied then (r, [Copy code]) else handler r
      else (r, [])
    end.

Definition step (r : runner) (e : event) : option (runner * list effect) :=
  match e, pc r with
  | EvStop, _ => Some (set_stop r, [])
  | EvStart, NotStarted => Some (loop (set_retry r 1))
  | EvConnected, Connecting =>
    Some (set_retry (set_status (set_ws r true) connected Receiving) 1,
          [SetStatus connected])
  | EvConnectFailed, Connecting => Some (handler r)
  | EvFrame msg decoded copied, Receiving => Some (on_frame r msg decoded copied)
  | EvClosed, Receiving => Some (after_for r)
  | EvBroken, Receiving => Some (handler r)
  | EvWoken, Sleeping => Some (loop (set_retry r (Z.min (retry r * 2) 30)))
  | _, _ => None
  end.

(** A run: the events in order, with everything the coroutine did. *)
Fixpoint run (r : runner) (es : list event) : option (runner * list effect) :=
  match es with
  | [] => Some (r, [])
  | e :: es' =>
    match step r e with
    | None => None
    | Some (r1, out1) =>
      match run r1 es' with
      | None => None
      | Some (r2, out2) => Some (r2, out1 ++ out2)
      end
    end
  end.

(** The delay of the [k]-th wait in a row: 1, 2, 4, 8, 16, 30, 30, ... *)
Definition delay (k : nat) : Z := Z.min (2 ^ Z.of_nat k) 30.

(** The waits since the status last became [connected] (or since the
    start), oldest first. *)
Fixpoint waits_since_connected (acc : list Z) (tr : list effect) : list Z :=
  match tr with
  | [] => acc
  | SetStatus connected :: tr' => waits_since_connected [] tr'
  | Wait d :: tr' => waits_since_connected (acc ++ [d]) tr'
  | _ :: tr' => waits_since_connected acc tr'
  end.

Definition is_connect (e : effect) : bool :=
  match e with Connect => true | _ => false end.

(** The code reads the stop signal while handling this event. *)
Definition observes_stop (e : event) : bool :=
  match e with
  | EvStop | EvConnected => false
  | _ => true
  end.

(** [decoded] is a JSON object with a string [text] member. *)
Definition has_text (decoded : option pyobj) : bool :=
  match decoded with
  | Some (PyDict items _) =>
    match dict_get items (py "text") py_None with
    | PyStr _ => true
    | _ => false
    end
  | _ => false
  end.

(** Which status goes with which suspension point. *)
Definition consistent (r : runner) : Prop :=
  match pc r with
  | NotStarted => _status r = idle
  | Connecting => _status r = connecting
  | Receiving => _status r = connected /\ retry r = 1%Z
  | Sleeping => _status r = disconnected \/ _status r = error
  | Returned => _status r = stopped /\ stop_event r = true
  end.

(** The first [n] delays of a row of waits. *)
Definition delays (n : nat) : list Z := map delay (seq 0 n).

(** What a run keeps true of the waits since the last connection and of
    the local variable [retry]. *)
Definition backoff_inv (r : runner) (tr : list effect) : Prop :=
  let w := waits_since_connected [] tr in
  w = delays (List.length w) /\
  match pc r with
  | Sleeping => exists k, List.length w = S k /\ retry r = delay k
  | NotStarted | Receiving => w = [] /\ retry r = 1%Z
  | _ => retry r = delay (List.length w)
  end.

(** [n] connection attempts that fail one after the other, each with the
    end of the wait that follows it. *)
Fixpoint failures (n : nat) : list event :=
  match n with
  | O => []
  | S n' => EvConnectFailed :: EvWoken :: failures n'
  end.

(** What the coroutine does over these attempts when [k] waits came
    before them. *)
Fixpoint failure_trace (k n : nat) : list effect :=
  match n with
  | O => []
  | S n' =>
    SetStatus error :: Wait (delay k) :: SetStatus connecting :: Connect
      :: failure_trace (S k) n'
  end.

End Run.

(** ** Reading a trace *)

Section Observers.
Context {U : Unicode}.

(** The last status written in a trace, [s0] when it writes none. *)
Fixpoint last_status (s0 : status) (tr : list effect) : status :=
  match tr with
  | [] => s0
  | SetStatus s :: tr' => last_status s tr'
  | _ :: tr' => last_status s0 tr'
  end.

(** Whether a wait has been seen since the last [Connect], after [tr]. *)
Fixpoint waited_after (waited : bool) (tr : list effect) : bool :=
  match tr with
  | [] => waited
  | Connect :: tr' => waited_after false tr'
  | Wait _ :: tr' => waited_after true tr'
  | _ :: tr' => waited_after waited tr'
  end.

(** Every [Connect] of the trace comes after a [Wait] that follows the
    [Connect] before it; [waited] stands for what came before the trace. *)
Fixpoint waits_between_connects (waited : bool) (tr : list effect) : bool :=
  match tr with
  | [] => true
  | Connect :: tr' => waited && waits_between_connects false tr'
  | Wait _ :: tr' => waits_between_connects true tr'
  | _ :: tr' => waits_between_connects waited tr'
  end.

(** A frame with what [json.loads] makes of it, delivered while the
    clipboard works, and what the receive loop writes for it. *)
Definition frame_event (f : pystr * option pyobj) : event :=
  EvFrame (fst f) (snd f) true.

Definition copy_of (f : pystr * option pyobj) : list effect :=
  match extract_code (frame_text (fst f) (snd f)) with
  | [] => []
  | c => [Copy c]
  end.

(** The waits of a trace are between 1 and 30 seconds. *)
Definition wait_in_bounds (e : effect) : Prop :=
  match e with
  | Wait d => (1 <= d <= 30)%Z
  | _ => True
  end.

(** What is written to the clipboard is not empty and is what
    [extract_code] leaves unchanged. *)
Definition copy_is_result (e : effect) : Prop :=
  match e with
  | Copy c => c <> [] /\ extract_code c = c
  | _ => True
  end.

(** Where [self.ws] may be set. *)
Definition ws_inv (r : runner) : Prop :=
  (ws r = true -> pc r = Receiving \/ pc r = Returned) /\
  (pc r = Receiving -> ws r = true).

End Observers.

(** ** Configuration: [load_config], [pick] and the module constants *)

(** What a candidate path holds. *)
Inductive file_state :=
| Missing                 (* cfg_path.exists() is False *)
| Unreadable              (* exists(), open() or json.load() raises *)
| Json (data : pyobj).    (* the file parses to data *)

(** Where the interpreter runs.  A path is kept as its [str()]; the
    three paths computed from [sys.executable] and [__file__] are [None]
    when their computation raises. *)
Record host := {
  frozen : bool;                    (* getattr(sys, "frozen", False) *)
  exe_config : option pystr;        (* <exe dir>/config.json *)
  script_config : option pystr;     (* <script dir>/config.json *)
  shared_config : option pystr;     (* <script dir>/../config/config.json *)
  cwd_config : pystr;               (* <cwd>/config.json *)
  cwd_client_config : pystr         (* <cwd>/client/config/config.json *)
}.

Definition appended (p : option pystr) : list pystr :=
  match p with
  | Some q => [q]
  | None => []
  end.

(** The list [candidates] of [load_config], in its order. *)
Definition candidates (h : host) : list pystr :=
  (if frozen h then appended (exe_config h) else [])
  ++ appended (script_config h)
  ++ appended (shared_config h)
  ++ [cwd_config h; cwd_client_config h].

(** The [for cfg_path in candidates] loop. *)
Fixpoint first_config (fs : pystr -> file_state) (cands : list pystr)
    : list (pystr * pyobj) * pystr :=
  match cands with
  | [] => ([], [])
  | p :: rest =>
    match fs p with
    | Json (PyDict items _) => (items, p)
    | Json _ => ([], p)
    | Missing => first_config fs rest
    | Unreadable => first_config fs rest
    end
  end.

Definition load_config (h : host) (fs : pystr -> file_state)
    : list (pystr * pyobj) * pystr :=
  first_config fs (candidates h).

(** What [load_config] skips. *)
Definition skipped (fs : pystr -> file_state) (p : pystr) : Prop :=
  fs p = Missing \/ fs p = Unreadable.

(** [key in d], with [d[key]]. *)
Fixpoint dict_find (items : list (pystr * pyobj)) (key : pystr)
    : option pyobj :=
  match items with
  | [] => None
  | (k, v) :: rest => if str_eqb k key then Some v else dict_find rest key
  end.

(** [os.environ.get(key)]: the environment maps names to strings. *)
Fixpoint environ_get (environ : list (pystr * pystr)) (key : pystr)
    : option pystr :=
  match environ with
  | [] => None
  | (k, v) :: rest => if str_eqb k key then Some v else environ_get rest key
  end.

(** [o is None]: among the built-in objects [None] alone is false and
    shown as [None]. *)
Definition is_None (o : pyobj) : bool :=
  match o with
  | PyOther false shown => str_eqb shown (py "None")
  | _ => false
  end.

(** [isinstance(o, bool)]: [True] and [False] alone are shown as such. *)
Definition is_bool (o : pyobj) : bool :=
  match o with
  | PyOther true shown => str_eqb shown (py "True")
  | PyOther false shown => str_eqb shown (py "False")
  | _ => false
  end.

Section Config.
Context {U : Unicode}.
Variable lower : pystr -> pystr.    (* str.lower *)

(** [str(o).strip() != ""] *)
Definition not_blank (o : pyobj) : bool :=
  negb (Nat.eqb (List.length (strip (py_str o))) 0).

(** [pick]: the configuration file, then the environment, then the
    default. *)
Definition pick (_cfg : list (pystr * pyobj)) (environ : list (pystr * pystr))
    (key env_key : pystr) (default : pyobj) : pyobj :=
  let from_environ :=
    match environ_get environ env_key with
    | Some v => if not_blank (PyStr v) then PyStr v else default
    | None => default
    end in
  match dict_find _cfg key with
  | Some v => if negb (is_None v) && not_blank v then v else from_environ
  | None => from_environ
  end.

(** The scheme: [scheme] of the file when it is ws or wss in any case,
    else [use_tls] when it is a boolean, else wss. *)
Definition scheme_of (_cfg : list (pystr * pyobj)) : pystr :=
  let use_tls_raw := dict_get _cfg (py "use_tls") py_None in
  let scheme_raw := dict_get _cfg (py "scheme") py_None in
  match scheme_raw with
  | PyStr raw =>
    if str_eqb (lower raw) (py "ws") || str_eqb (lower raw) (py "wss")
    then lower raw
    else if is_bool use_tls_raw
         then (if truth use_tls_raw then py "wss" else py "ws")
         else py "wss"
  | _ =>
    if is_bool use_tls_raw
    then (if truth use_tls_raw then py "wss" else py "ws")
    else py "wss"
  end.

(** [str(val).lower() in ("1", "true", "yes", "y", "on")] *)
Definition switched_on (val : pyobj) : bool :=
  existsb (str_eqb (lower (py_str val)))
          [py "1"; py "true"; py "yes"; py "y"; py "on"].

(** The module constants. *)
Record settings := {
  BASE : pystr; ROOM : pystr; TOKEN : pystr; SCHEME : pystr;
  WS_URL : pystr; VERBOSE : bool; TRAY_ENABLED : bool
}.

Definition resolve (_cfg : list (pystr * pyobj))
    (environ : list (pystr * pystr)) : settings :=
  let base := py_str (pick _cfg environ (py "base") (py "CP_BASE")
                        (PyStr (py "example.com"))) in
  let room := py_str (pick _cfg environ (py "room") (py "CP_ROOM")
                        (PyStr (py "YOUR_ROOM_KEY"))) in
  let token := py_str (pick _cfg environ (py "token") (py "CP_TOKEN")
                         (PyStr room)) in
  let scheme := scheme_of _cfg in
  {| BASE := base; ROOM := room; TOKEN := token; SCHEME := scheme;
     WS_URL := scheme ++ py "://" ++ base ++ py "/ws?room=" ++ room
               ++ py "&token=" ++ token;
     VERBOSE := switched_on (pick _cfg environ (py "verbose")
                               (py "CP_VERBOSE") (PyStr (py "0")));
     TRAY_ENABLED := switched_on (pick _cfg environ (py "tray")
                                    (py "CP_TRAY") (PyStr (py "1"))) |}.

End Config.

(** ** [parse_extra_headers] of the push test *)

Definition colon : N := 58%N.

(** [item.split(":", 1)] for an item with a colon in it; [None] for an
    item without ([":" not in item]). *)
Fixpoint split_colon (item : pystr) : option (pystr * pystr) :=
  match item with
  | [] => None
  | c :: rest =>
    if (c =? colon)%N then Some ([], rest)
    else
      match split_colon rest with
      | Some (k, v) => Some (c :: k, v)
      | None => None
      end
  end.

(** [out[k] = v] on a [dict] of strings, kept in insertion order. *)
Fixpoint header_set (out : list (pystr * pystr)) (k v : pystr)
    : list (pystr * pystr) :=
  match out with
  | [] => [(k, v)]
  | (k', v') :: rest =>
    if str_eqb k' k then (k', v) :: rest else (k', v') :: header_set rest k v
  end.

(** [out.get(k)] *)
Fixpoint header_get (out : list (pystr * pystr)) (k : pystr) : option pystr :=
  match out with
  | [] => None
  | (k', v') :: rest => if str_eqb k' k then Some v' else header_get rest k
  end.

Section Headers.
Context {U : Unicode}.

(** The key and the value an item stands for, if any. *)
Definition header_of (item : pystr) : option (pystr * pystr) :=
  match split_colon item with
  | None => None
  | Some (k, v) =>
    match strip k with
    | [] => None
    | k' => Some (k', strip v)
    end
  end.

(** The body of the [for item in raw_headers] loop. *)
Definition add_header (out : list (pystr * pystr)) (item : pystr)
    : list (pystr * pystr) :=
  match split_colon item with
  | None => out
  | Some (k, v) =>
    let k := strip k in
    let v := strip v in
    match k with
    | [] => out
    | _ => header_set out k v
    end
  end.

Definition parse_extra_headers (raw_headers : list pystr)
    : list (pystr * pystr) :=
  fold_left add_header raw_headers [].

(** The value of the last item that stands for key [k]. *)
Fixpoint last_header (raw_headers : list pystr) (k : pystr) (found : option pystr)
    : option pystr :=
  match raw_headers with
  | [] => found
  | item :: rest =>
    match header_of item with
    | Some (k', v) =>
      last_header rest k (if str_eqb k' k then Some v else found)
    | None => last_header rest k found
    end
  end.

(** Keys are not empty, keys and values carry no white space at either
    end. *)
Definition clean_header (kv : pystr * pystr) : Prop :=
  fst kv <> [] /\ strip (fst kv) = fst kv /\ strip (snd kv) = snd kv.

End Headers.

(** ** A concrete table for examples

    Decimal digits [0-9]; CPython's white space; literals compared after
    simple lower-casing, with the two extra equivalences of [sre]
    (dotless i for [i], long s for [s]).  It agrees with CPython on Basic
    Latin and on the CJK characters of the keywords and the tests, which
    is all the examples below contain. *)
Module Basic.

Definition between (lo hi c : N) : bool := ((lo <=? c) && (c <=? hi))%N.

Definition isdecimal (c : N) : bool := between 48 57 c.

Definition isspace (c : N) : bool :=
  between 9 13 c || between 28 32 c || (c =? 133)%N || (c =? 160)%N
  || (c =? 5760)%N || between 8192 8202 c || (c =? 8232)%N || (c =? 8233)%N
  || (c =? 8239)%N || (c =? 8287)%N || (c =? 12288)%N.

Definition lower (c : N) : N :=
  if between 65 90 c then (c + 32)%N
  else if (c =? 304)%N then 105%N
  else if (c =? 8490)%N then 107%N
  else c.

Definition iequal (p c : N) : bool :=
  (lower c =? lower p)%N
  || ((lower p =? 105) && (c =? 305))%N
  || ((lower p =? 115) && (c =? 383))%N.

Definition tables : Unicode.
Proof.
  refine (Build_Unicode isdecimal isspace iequal _). intros c.
  unfold isspace, isdecimal, between. intros H.
  repeat (apply orb_prop in H; destruct H as [H | H]);
    repeat match goal with
    | H : _ && _ = true |- _ => apply andb_prop in H; destruct H
    | H : (_ <=? _)%N = true |- _ => apply N.leb_le in H
    | H : (_ =? _)%N = true |- _ => apply N.eqb_eq in H
    end;
    apply andb_false_iff; rewrite !N.leb_gt; lia.
Defined.

End Basic.

(** ** Frames used in the examples *)

Module Example.

Definition quoted (s : pystr) : pystr := [34%N] ++ s ++ [34%N].

(** The frame [{"key": "value"}] and what [json.loads] makes of it (with
    what [str()] shows for that [dict]). *)
Definition frame (key value : string) : pystr :=
  py "{" ++ quoted (py key) ++ py ": " ++ quoted (py value) ++ py "}".

Definition loads (key value : string) : option pyobj :=
  Some (PyDict [(py key, PyStr (py value))]
               (py "{'" ++ py key ++ py "': '" ++ py value ++ py "'}")).

(** A runner in the receive loop: [run] started and the connection was
    made. *)
Definition receiving : runner :=
  {| stop_event := false; ws := true; _status := connected; retry := 1;
     pc := Receiving |}.

End Example.

(** * Proofs *)

(** ** The matcher accepts matches only *)

Section Semantics.
Context {U : Unicode}.
Variable ignorecase : bool.
Variable s : pystr.

Lemma count_in_within k hi l : within hi (count_in k hi l).
Proof.
  revert hi; induction l as [|c l IH]; intros hi; simpl.
  - destruct hi; simpl; lia.
  - destruct (in_category k c); [|destruct hi; simpl; lia].
    destruct hi as [[|h]|]; simpl; try lia.
    specialize (IH (Some h)); simpl in IH; lia.
Qed.

Lemma count_in_all k hi l p :
  p < count_in k hi l ->
  exists c, nth_error l p = Some c /\ in_category k c = true.
Proof.
  revert hi p; induction l as [|c l IH]; intros hi p; simpl; [lia|].
  destruct (in_category k c) eqn:Ec; [|lia].
  destruct hi as [[|h]|]; try lia; intros Hp;
    (destruct p as [|p]; simpl; [eauto | eapply IH; apply PeanoNat.lt_S_n, Hp]).
Qed.

Lemma count_in_at k hi i p :
  p < count_in k hi (skipn i s) -> at_in k s (i + p) = true.
Proof.
  intros H. apply count_in_all in H as (c & Hc & Hk).
  rewrite nth_error_skipn in Hc. unfold at_in. now rewrite Hc.
Qed.

Lemma give_back_some (A : Type) lo n (k : nat -> option A) x :
  give_back lo n k = Some x -> exists m, lo <= m <= n /\ k m = Some x.
Proof.
  induction n as [|n IH]; simpl.
  - destruct (0 <? lo) eqn:E; [discriminate|]. apply Nat.ltb_ge in E.
    destruct (k 0) eqn:K; [|discriminate].
    intros [= <-]. exists 0. split; [lia | assumption].
  - destruct (S n <? lo) eqn:E; [discriminate|]. apply Nat.ltb_ge in E.
    destruct (k (S n)) eqn:K.
    + intros [= <-]. exists (S n). split; [lia | assumption].
    + intros H. apply IH in H as (m & Hm & Hk). exists m. split; [lia | assumption].
Qed.

(** Whatever the matcher accepts is a match. *)
Lemma exec_sound (A : Type) r : forall i g (k : nat -> option span -> option A) x,
  exec ignorecase s r i g k = Some x ->
  exists j g1, Matches ignorecase s r i g j g1 /\ k j g1 = Some x.
Proof.
  induction r; intros i g kont x; simpl.
  - intros H. exists i, g. split; [constructor | assumption].
  - destruct (nth_error s i) as [c0|] eqn:En; [|discriminate].
    destruct (literal_eq ignorecase c c0) eqn:El; [|discriminate].
    intros H. exists (S i), g. split; [econstructor; eassumption | assumption].
  - destruct (at_in k s i) eqn:Ea; [|discriminate].
    intros H. exists (S i), g. split; [constructor; assumption | assumption].
  - intros H. apply IHr1 in H as (j & g1 & H1 & H).
    apply IHr2 in H as (l & g2 & H2 & H).
    exists l, g2. split; [econstructor; eassumption | assumption].
  - destruct (exec ignorecase s r1 i g kont) eqn:E1.
    + intros [= <-]. apply IHr1 in E1 as (j & g1 & H1 & H).
      exists j, g1. split; [apply M_BranchL; assumption | assumption].
    + intros H. apply IHr2 in H as (j & g1 & H2 & H).
      exists j, g1. split; [apply M_BranchR; assumption | assumption].
  - destruct (exec ignorecase s r i g kont) eqn:E1.
    + intros [= <-]. apply IHr in E1 as (j & g1 & H1 & H).
      exists j, g1. split; [apply M_OptionalSome; assumption | assumption].
    + intros H. exists i, g. split; [apply M_OptionalNone | assumption].
  - intros H. apply give_back_some in H as (m & Hm & H).
    exists (i + m), g. split; [|assumption].
    constructor; [lia | |].
    + pose proof (count_in_within k hi (skipn i s)) as W.
      destruct hi; simpl in *; [lia | exact I].
    + intros p Hp. apply (count_in_at k hi). lia.
  - intros H. apply IHr in H as (j & g1 & H1 & H).
    exists j, (Some (i, j)). split; [econstructor; eassumption | assumption].
  - destruct (behind_in k s i) eqn:Eb; [discriminate|].
    intros H. exists i, g. split; [constructor; assumption | assumption].
  - destruct (at_in k s i) eqn:Ea; [discriminate|].
    intros H. exists i, g. split; [constructor; assumption | assumption].
Qed.

Lemma search_from_sound r n i m :
  search_from ignorecase r s n i = Some m ->
  exists a, i <= a < i + n /\ m_start m = a /\
            Matches ignorecase s r a None (m_end m) (m_group1 m).
Proof.
  revert i; induction n as [|n IH]; intros i; simpl; [discriminate|].
  destruct (exec _ _ _ _ _ _) as [m'|] eqn:E.
  - intros [= ->]. apply exec_sound in E as (j & g1 & HM & [= <-]).
    exists i. simpl. repeat split; [lia | lia | assumption].
  - intros H. apply IH in H as (a & Ha & Hs & HM).
    exists a. repeat split; [lia | lia | assumption | assumption].
Qed.

Lemma search_sound r m :
  search ignorecase r s = Some m ->
  exists a, a <= List.length s /\ m_start m = a /\
            Matches ignorecase s r a None (m_end m) (m_group1 m).
Proof.
  intros H. apply search_from_sound in H as (a & Ha & Hs & HM).
  exists a. repeat split; [lia | assumption | assumption].
Qed.

(** Patterns without a capturing group leave group 1 as it was. *)
Lemma Matches_no_group r i g j g1 :
  Matches ignorecase s r i g j g1 -> has_group r = false -> g1 = g.
Proof.
  induction 1; simpl; intros Hg; try reflexivity; try discriminate.
  - apply orb_false_iff in Hg as [H1 H2].
    rewrite IHMatches2, IHMatches1 by assumption. reflexivity.
  - apply orb_false_iff in Hg as [H1 H2]. auto.
  - apply orb_false_iff in Hg as [H1 H2]. auto.
  - auto.
Qed.

End Semantics.

(** ** Digit runs and the code pattern *)

Section Runs.
Context {U : Unicode}.

Lemma at_in_lt k s i : at_in k s i = true -> i < List.length s.
Proof.
  unfold at_in. destruct (nth_error s i) eqn:E; [|discriminate].
  intros _. apply nth_error_Some. congruence.
Qed.

Lemma isolated_run_spec s i n :
  isolated_run s i n = true <->
  4 <= n <= 8 /\ (forall p, p < n -> at_in DIGIT s (i + p) = true) /\
  behind_in DIGIT s i = false /\ at_in DIGIT s (i + n) = false.
Proof.
  unfold isolated_run. rewrite !andb_true_iff, !negb_true_iff.
  rewrite !Nat.leb_le, forallb_forall. split.
  - intros ((((H4 & H8) & Hd) & Hb) & Ha). repeat split; try assumption.
    intros p Hp. apply Hd, in_seq. lia.
  - intros ((H4 & H8) & Hd & Hb & Ha). repeat split; try assumption.
    intros x Hx. apply in_seq in Hx. replace x with (i + (x - i)) by lia.
    apply Hd. lia.
Qed.

Lemma isolated_runs_spec s i n :
  In (i, n) (isolated_runs s) <-> isolated_run s i n = true.
Proof.
  unfold isolated_runs. rewrite filter_In, in_prod_iff, !in_seq. split.
  - tauto.
  - intros H. split; [|assumption].
    apply isolated_run_spec in H as (Hn & Hd & _).
    specialize (Hd 0 ltac:(lia)). apply at_in_lt in Hd. lia.
Qed.

Lemma Matches_Concat_inv ic s r1 r2 i g l g2 :
  Matches ic s (Concat r1 r2) i g l g2 ->
  exists j g1, Matches ic s r1 i g j g1 /\ Matches ic s r2 j g1 l g2.
Proof. inversion 1; subst; eauto. Qed.

Lemma Matches_Empty_inv ic s i g j g1 :
  Matches ic s Empty i g j g1 -> j = i /\ g1 = g.
Proof. inversion 1; subst; auto. Qed.

(** What [(?<!\d)(\d{4,8})(?!\d)] matches is an isolated run, and it is
    group 1. *)
Lemma code_sound ic s i g j g1 :
  Matches ic s code i g j g1 ->
  exists n, j = i + n /\ g1 = Some (i, i + n) /\ isolated_run s i n = true.
Proof.
  unfold code; cbn [concat]. intros H.
  apply Matches_Concat_inv in H as (j1 & h1 & H1 & H).
  apply Matches_Concat_inv in H as (j2 & h2 & H2 & H).
  apply Matches_Concat_inv in H as (j3 & h3 & H3 & H).
  apply Matches_Empty_inv in H as (-> & ->).
  inversion H1; subst. inversion H3; subst. inversion H2; subst.
  match goal with H : Matches _ _ (MaxRepeat _ _ _) _ _ _ _ |- _ =>
    inversion H; subst end.
  exists n. repeat split. apply isolated_run_spec.
  simpl in *. repeat split; try assumption; lia.
Qed.

Lemma has_group_keyword : has_group keyword = false.
Proof. reflexivity. Qed.

(** Every match object [extract_code] can end with has group 1 set, on
    an isolated run. *)
Lemma find_code_group text m :
  find_code text = Some m ->
  exists i n, m_group1 m = Some (i, i + n) /\ isolated_run text i n = true.
Proof.
  unfold find_code.
  destruct (search true keyword_then_code text) as [m1|] eqn:E1.
  { intros [= <-]. apply search_sound in E1 as (a & _ & _ & H).
    unfold keyword_then_code in H; cbn [concat] in H.
    apply Matches_Concat_inv in H as (j1 & h1 & H1 & H).
    apply Matches_Concat_inv in H as (j2 & h2 & H2 & H).
    apply Matches_Concat_inv in H as (j3 & h3 & H3 & H).
    apply Matches_Empty_inv in H as (E & ->).
    apply code_sound in H3 as (n & _ & -> & Hr). eauto. }
  destruct (search true code_then_keyword text) as [m2|] eqn:E2.
  { intros [= <-]. apply search_sound in E2 as (a & _ & _ & H).
    unfold code_then_keyword in H; cbn [concat] in H.
    apply Matches_Concat_inv in H as (j1 & h1 & H1 & H).
    apply Matches_Concat_inv in H as (j2 & h2 & H2 & H).
    apply Matches_Concat_inv in H as (j3 & h3 & H3 & H).
    apply Matches_Empty_inv in H as (E & ->).
    apply code_sound in H1 as (n & _ & -> & Hr).
    apply Matches_no_group in H2; [|reflexivity].
    apply Matches_no_group in H3; [|apply has_group_keyword].
    subst. eauto. }
  intros E3. apply search_sound in E3 as (a & _ & _ & H).
  apply code_sound in H as (n & _ & -> & Hr). eauto.
Qed.

(** Conversely the last pattern finds an isolated run when there is one. *)
Lemma count_in_exact k l : forall n h,
  (forall p, p < n -> exists c, nth_error l p = Some c /\ in_category k c = true) ->
  match nth_error l n with Some c => in_category k c | None => false end = false ->
  n <= h -> count_in k (Some h) l = n.
Proof.
  induction l as [|c l IH]; intros n h Hall Hend Hle; simpl.
  - destruct n; [reflexivity|].
    destruct (Hall 0 ltac:(lia)) as (c & Hc & _). discriminate.
  - destruct n as [|n]; simpl in Hend.
    + now rewrite Hend.
    + destruct (Hall 0 ltac:(lia)) as (c0 & [= <-] & ->).
      destruct h as [|h]; [lia|]. f_equal. apply IH; [|assumption|lia].
      intros p Hp. apply (Hall (S p)). lia.
Qed.

Lemma give_back_top (A : Type) lo n (k : nat -> option A) x :
  lo <= n -> k n = Some x -> give_back lo n k = Some x.
Proof.
  intros Hle Hk. destruct n; simpl.
  - destruct (0 <? lo) eqn:E; [apply Nat.ltb_lt in E; lia|]. now rewrite Hk.
  - destruct (S n <? lo) eqn:E; [apply Nat.ltb_lt in E; lia|]. now rewrite Hk.
Qed.

Lemma exec_code_run (A : Type) ic s i n g (k : nat -> option span -> option A) x :
  isolated_run s i n = true ->
  k (i + n) (Some (i, i + n)) = Some x ->
  exec ic s code i g k = Some x.
Proof.
  intros Hr Hk. apply isolated_run_spec in Hr as (Hn & Hd & Hb & Ha).
  unfold code; cbn [concat exec]. rewrite Hb.
  assert (count_in DIGIT (Some 8) (skipn i s) = n) as ->.
  { apply count_in_exact; [| |lia].
    - intros p Hp. specialize (Hd p Hp). unfold at_in in Hd.
      rewrite nth_error_skipn.
      destruct (nth_error s (i + p)); [eauto | discriminate].
    - rewrite nth_error_skipn. exact Ha. }
  apply give_back_top; [lia|]. now rewrite Ha.
Qed.

Lemma search_from_complete ic r s a m : forall n i,
  exec ic s r a None
    (fun j g => Some {| m_start := a; m_end := j; m_group1 := g |}) = Some m ->
  i <= a < i + n ->
  exists m', search_from ic r s n i = Some m'.
Proof.
  induction n as [|n IH]; intros i Ha Hi; [lia|]. simpl.
  destruct (exec ic s r i None _) eqn:E; [eauto|].
  destruct (Nat.eq_dec i a) as [->|Hne]; [congruence|].
  apply IH; [assumption | lia].
Qed.

Lemma find_code_complete text i n :
  isolated_run text i n = true -> exists m, find_code text = Some m.
Proof.
  intros Hr. unfold find_code.
  destruct (search true keyword_then_code text); [eauto|].
  destruct (search true code_then_keyword text); [eauto|].
  unfold search. eapply search_from_complete with (a := i).
  - eapply exec_code_run; [eassumption | reflexivity].
  - apply isolated_run_spec in Hr as (Hn & Hd & _).
    specialize (Hd 0 ltac:(lia)). apply at_in_lt in Hd. lia.
Qed.

End Runs.

(** ** Facts about [strip] *)

Section Strip.
Context {U : Unicode}.

Lemma lstrip_split s : exists a, s = a ++ lstrip s /\ forallb isspace a = true.
Proof.
  induction s as [|c s (a & E & Ha)]; simpl.
  - exists []. auto.
  - destruct (isspace c) eqn:Ec.
    + exists (c :: a). simpl. rewrite Ec, Ha. split; [f_equal; exact E | reflexivity].
    + exists []. auto.
Qed.

Lemma lstrip_head s c r : lstrip s = c :: r -> isspace c = false.
Proof.
  induction s as [|d s IH]; simpl; [discriminate|].
  destruct (isspace d) eqn:Ed; [exact IH|]. intros [= <- _]. exact Ed.
Qed.

Lemma lstrip_idem s : lstrip (lstrip s) = lstrip s.
Proof.
  destruct (lstrip s) as [|c r] eqn:E; [reflexivity|].
  simpl. now rewrite (lstrip_head _ _ _ E).
Qed.

Lemma lstrip_snoc l c :
  isspace c = false -> exists l', lstrip (l ++ [c]) = l' ++ [c].
Proof.
  intros Hc. induction l as [|d l (l' & IH)]; simpl.
  - rewrite Hc. now exists [].
  - destruct (isspace d); [eauto|]. now exists (d :: l).
Qed.

Lemma lstrip_blank s : forallb isspace s = true -> lstrip s = [].
Proof.
  induction s as [|c s IH]; simpl; [reflexivity|].
  intros H. apply andb_prop in H as (-> & H). auto.
Qed.

Lemma forallb_rev (f : N -> bool) l : forallb f (rev l) = forallb f l.
Proof.
  induction l as [|c l IH]; simpl; [reflexivity|].
  rewrite forallb_app, IH. simpl. rewrite andb_true_r. apply andb_comm.
Qed.

Lemma rstrip_split s : exists b, s = rstrip s ++ b /\ forallb isspace b = true.
Proof.
  destruct (lstrip_split (rev s)) as (a & E & Ha). exists (rev a). split.
  - unfold rstrip. rewrite <- rev_app_distr, <- E. symmetry. apply rev_involutive.
  - now rewrite forallb_rev.
Qed.

Lemma rstrip_head c r :
  isspace c = false -> exists r', rstrip (c :: r) = c :: r'.
Proof.
  intros Hc. unfold rstrip. simpl.
  destruct (lstrip_snoc (rev r) c Hc) as (l' & ->).
  rewrite rev_app_distr. simpl. eauto.
Qed.

Lemma rstrip_idem s : rstrip (rstrip s) = rstrip s.
Proof. unfold rstrip. now rewrite rev_involutive, lstrip_idem. Qed.

Lemma strip_lstrip s : lstrip (strip s) = strip s.
Proof.
  unfold strip. destruct (lstrip s) as [|c r] eqn:E; [reflexivity|].
  pose proof (lstrip_head _ _ _ E) as Hc.
  destruct (rstrip_head c r Hc) as (r' & ->). simpl. now rewrite Hc.
Qed.

(** Stripping a stripped string changes nothing. *)
Lemma strip_idem s : strip (strip s) = strip s.
Proof.
  unfold strip at 1. rewrite strip_lstrip. unfold strip. apply rstrip_idem.
Qed.

Lemma strip_blank s : forallb isspace s = true -> strip s = [].
Proof. intros H. unfold strip. now rewrite lstrip_blank. Qed.

Lemma strip_split s :
  exists a b, s = a ++ strip s ++ b /\ List.length a = lead s /\
              forallb isspace a = true /\ forallb isspace b = true.
Proof.
  destruct (lstrip_split s) as (a & Ea & Ha).
  destruct (rstrip_split (lstrip s)) as (b & Eb & Hb).
  exists a, b. unfold strip. rewrite <- Eb. repeat split; try assumption.
  unfold lead. rewrite Ea at 1. rewrite length_app. lia.
Qed.

(** *** Runs of the text and of the stripped text *)

Lemma spaces_no_digit l : forallb isspace l = true -> no_digit l.
Proof.
  unfold no_digit. rewrite !forallb_forall. intros H c Hc.
  now rewrite (space_not_decimal c (H c Hc)).
Qed.

Lemma no_digit_nth l p c : no_digit l -> nth_error l p = Some c -> isdecimal c = false.
Proof.
  unfold no_digit. rewrite forallb_forall. intros H Hp.
  apply nth_error_In in Hp. apply H in Hp. now apply negb_true_iff in Hp.
Qed.

Lemma at_digit_pad_lt a r q :
  no_digit a -> q < List.length a -> at_in DIGIT (a ++ r) q = false.
Proof.
  intros Ha Hq. unfold at_in. rewrite nth_error_app1 by assumption.
  destruct (nth_error a q) eqn:E; [|reflexivity]. simpl. eapply no_digit_nth; eassumption.
Qed.

Lemma at_digit_pad a t b p :
  no_digit b -> at_in DIGIT (a ++ t ++ b) (List.length a + p) = at_in DIGIT t p.
Proof.
  intros Hb. unfold at_in. rewrite nth_error_app2 by lia.
  replace (List.length a + p - List.length a) with p by lia.
  rewrite nth_error_app. destruct (p <? List.length t) eqn:E; [reflexivity|].
  apply Nat.ltb_ge in E. apply nth_error_None in E as ->.
  destruct (nth_error b _) eqn:Eb; [|reflexivity]. simpl. eapply no_digit_nth; eassumption.
Qed.

Lemma behind_digit_pad a t b i :
  no_digit a -> no_digit b ->
  behind_in DIGIT (a ++ t ++ b) (List.length a + i) = behind_in DIGIT t i.
Proof.
  intros Ha Hb. destruct i as [|i].
  - rewrite Nat.add_0_r. simpl. destruct (List.length a) eqn:E; [reflexivity|].
    simpl. apply at_digit_pad_lt; [assumption | lia].
  - rewrite Nat.add_succ_r. simpl. now apply at_digit_pad.
Qed.

Lemma isolated_run_pad a t b i n :
  no_digit a -> no_digit b ->
  isolated_run (a ++ t ++ b) (List.length a + i) n = isolated_run t i n.
Proof.
  intros Ha Hb. apply eq_true_iff_eq. rewrite !isolated_run_spec.
  rewrite behind_digit_pad by assumption.
  rewrite <- Nat.add_assoc, at_digit_pad by assumption.
  split; intros (Hn & Hd & Hrest); (split; [assumption|]); (split; [|assumption]);
    intros p Hp; specialize (Hd p Hp);
    rewrite <- Nat.add_assoc, at_digit_pad in *; assumption.
Qed.

Lemma isolated_run_start a r q n :
  no_digit a -> isolated_run (a ++ r) q n = true -> List.length a <= q.
Proof.
  intros Ha H. apply isolated_run_spec in H as (Hn & Hd & _).
  specialize (Hd 0 ltac:(lia)). rewrite Nat.add_0_r in Hd.
  destruct (Nat.lt_ge_cases q (List.length a)) as [Hlt|]; [|assumption].
  rewrite at_digit_pad_lt in Hd by assumption. discriminate.
Qed.

Lemma isolated_run_end t i n : isolated_run t i n = true -> i + n <= List.length t.
Proof.
  intros H. apply isolated_run_spec in H as (Hn & Hd & _).
  specialize (Hd (n - 1) ltac:(lia)). apply at_in_lt in Hd. lia.
Qed.

Lemma slice_pad a t b i n :
  i + n <= List.length t ->
  slice (a ++ t ++ b) (List.length a + i) (List.length a + i + n) = slice t i (i + n).
Proof.
  intros H. unfold slice.
  replace (List.length a + i + n - (List.length a + i)) with n by lia.
  replace (i + n - i) with n by lia.
  rewrite skipn_app, skipn_all2 by lia. simpl.
  replace (List.length a + i - List.length a) with i by lia.
  rewrite skipn_app, firstn_app, length_skipn.
  replace (n - (List.length t - i)) with 0 by lia.
  simpl. apply app_nil_r.
Qed.

(** The characters of an isolated run are decimal digits. *)
Lemma isolated_run_isdecimal t i n :
  isolated_run t i n = true -> str_isdecimal (slice t i (i + n)) = true.
Proof.
  intros H. pose proof (isolated_run_end _ _ _ H) as He.
  apply isolated_run_spec in H as (Hn & Hd & _).
  unfold str_isdecimal, slice. replace (i + n - i) with n by lia.
  rewrite length_firstn, length_skipn.
  apply andb_true_intro. split.
  - apply negb_true_iff, Nat.eqb_neq. lia.
  - apply forallb_forall. intros c Hc. apply In_nth_error in Hc as (p & Hp).
    rewrite nth_error_firstn in Hp. destruct (p <? n) eqn:E; [|discriminate].
    apply Nat.ltb_lt in E. rewrite nth_error_skipn in Hp.
    specialize (Hd p E). unfold at_in in Hd. now rewrite Hp in Hd.
Qed.

End Strip.

(** ** Properties of [extract_code] *)

Section ExtractCode.
Context {U : Unicode}.

Lemma extract_code_no_match text :
  find_code (strip text) = None -> extract_code text = strip text.
Proof.
  intros H. unfold extract_code. rewrite H. now destruct (strip text).
Qed.

Lemma extract_code_match text m :
  strip text <> [] -> find_code (strip text) = Some m ->
  extract_code text = group1 (strip text) m.
Proof.
  intros Hne H. unfold extract_code. rewrite H.
  destruct (strip text); [contradiction | reflexivity].
Qed.

Lemma isolated_run_nonempty t i n : isolated_run t i n = true -> t <> [].
Proof.
  intros H. apply isolated_run_end in H as He.
  apply isolated_run_spec in H as (Hn & _). intros ->. simpl in He. lia.
Qed.

Lemma find_code_nonempty t m : find_code t = Some m -> t <> [].
Proof.
  intros H. apply find_code_group in H as (i & n & _ & Hr).
  eapply isolated_run_nonempty; eassumption.
Qed.

(** [extract_code] in terms of the span it selects. *)
Lemma extract_code_selected text :
  match selected_span text with
  | Some (a, b) => extract_code text = slice text a b
  | None => extract_code text = strip text
  end.
Proof.
  unfold selected_span. destruct (find_code (strip text)) as [m|] eqn:E.
  - destruct (find_code_group _ _ E) as (i & n & Hg & Hr). rewrite Hg.
    rewrite (extract_code_match text m (find_code_nonempty _ _ E) E).
    unfold group1. rewrite Hg.
    destruct (strip_split text) as (a & b & Et & <- & Ha & Hb).
    rewrite Et at 2. rewrite Nat.add_assoc. symmetry. apply slice_pad.
    eapply isolated_run_end; eassumption.
  - now apply extract_code_no_match.
Qed.

(** A selected span is an isolated run of the argument. *)
Lemma selected_span_isolated text a b :
  selected_span text = Some (a, b) ->
  exists n, b = a + n /\ isolated_run text a n = true.
Proof.
  unfold selected_span. destruct (find_code (strip text)) as [m|] eqn:E; [|discriminate].
  destruct (find_code_group _ _ E) as (i & n & Hg & Hr). rewrite Hg.
  intros [= <- <-]. exists n. split; [lia|].
  destruct (strip_split text) as (a & b & Et & <- & Ha & Hb).
  rewrite Et at 1. rewrite isolated_run_pad; auto using spaces_no_digit.
Qed.

(** When the argument has an isolated run, some span is selected. *)
Lemma selected_span_some text i n :
  isolated_run text i n = true -> exists sp, selected_span text = Some sp.
Proof.
  intros H. destruct (strip_split text) as (a & b & Et & El & Ha & Hb).
  assert (List.length a <= i) as Hi.
  { rewrite Et in H. eapply isolated_run_start; eauto using spaces_no_digit. }
  rewrite Et in H. replace i with (List.length a + (i - List.length a)) in H by lia.
  rewrite isolated_run_pad in H by auto using spaces_no_digit.
  destruct (find_code_complete _ _ _ H) as (m & Hm).
  destruct (find_code_group _ _ Hm) as (i' & n' & Hg & _).
  unfold selected_span. rewrite Hm, Hg. eauto.
Qed.

Lemma extract_code_empty text : strip text = [] -> extract_code text = [].
Proof. intros H. unfold extract_code. now rewrite H. Qed.

Lemma extract_code_no_run text :
  isolated_runs text = [] -> extract_code text = strip text.
Proof.
  intros H. pose proof (extract_code_selected text) as S.
  destruct (selected_span text) as [[a b]|] eqn:E; [|assumption].
  apply selected_span_isolated in E as (n & -> & Hr).
  apply isolated_runs_spec in Hr. rewrite H in Hr. contradiction.
Qed.

(** C6. A text that is empty after stripping (so also one of white space
    only) gives the empty string; a text with no isolated run of 4 to 8
    digits (in particular one with no 4 digits in a row at all) gives the
    stripped text itself, and no other value stands for "no code". *)
Theorem extract_code_blank_or_no_run (text : pystr) :
  (strip text = [] -> extract_code text = []) /\
  (forallb isspace text = true -> extract_code text = []) /\
  (isolated_runs text = [] -> extract_code text = strip text).
Proof.
  split; [apply extract_code_empty|]. split; [|apply extract_code_no_run].
  intros H. apply extract_code_empty, strip_blank, H.
Qed.


(** C8. A run of 4 to 8 digits that touches another digit is never the
    span [extract_code] selects, whether or not the text has other
    candidates. *)
Theorem embedded_run_not_selected (text : pystr) (i n : nat) :
  embedded_run text i n = true ->
  selected_span text <> Some (i, i + n).
Proof.
  intros He E. apply selected_span_isolated in E as (n' & En & Hr).
  assert (n' = n) as -> by lia.
  apply isolated_run_spec in Hr as (_ & _ & Hb & Ha).
  unfold embedded_run in He. rewrite Hb, Ha in He.
  now rewrite andb_false_r in He.
Qed.

(** C9. When [extract_code] returns something that is not a string of
    decimal digits (so no pattern matched and the stripped text came
    back), extracting again from that result returns it unchanged. *)
Theorem extract_code_fixed_point (text : pystr) :
  str_isdecimal (extract_code text) = false ->
  extract_code (extract_code text) = extract_code text.
Proof.
  intros H. destruct (find_code (strip text)) as [m|] eqn:E.
  - exfalso. rewrite (extract_code_match text m (find_code_nonempty _ _ E) E) in H.
    destruct (find_code_group _ _ E) as (i & n & Hg & Hr).
    unfold group1 in H. rewrite Hg, (isolated_run_isdecimal _ _ _ Hr) in H.
    discriminate.
  - rewrite (extract_code_no_match text E).
    rewrite (extract_code_no_match (strip text)); rewrite strip_idem;
      [reflexivity | assumption].
Qed.

End ExtractCode.

(** ** Properties of [ClientRunner.run] *)

Section RunFacts.
Context {U : Unicode}.

Lemma extract_code_any_str s : extract_code_any (PyStr s) = Ok (extract_code s).
Proof. unfold extract_code_any, py_or. simpl. destruct s; reflexivity. Qed.

Lemma on_frame_eq r msg decoded copied :
  on_frame r msg decoded copied =
  if stop_event r then after_for r
  else
    let code := extract_code (frame_text msg decoded) in
    if truth (PyStr code) then
      if copied then (r, [Copy code]) else handler r
    else (r, []).
Proof. unfold on_frame. now rewrite extract_code_any_str. Qed.

(** C10. [extract_code] returns the empty string for [None] and for every
    other object that is false, and returns (never raises) for every
    [str]; the receive loop calls it on a [str] only, so the extraction
    step raises for no frame. *)
Theorem extract_code_any_total :
  extract_code_any py_None = Ok [] /\
  (forall o, truth o = false -> extract_code_any o = Ok []) /\
  (forall s, extract_code_any (PyStr s) = Ok (extract_code s)) /\
  (forall msg decoded,
     extract_code_any (PyStr (frame_text msg decoded)) <> Raised).
Proof.
  assert (forall o, truth o = false -> extract_code_any o = Ok []) as F.
  { intros o H. unfold extract_code_any, py_or. now rewrite H. }
  split; [now apply F|]. split; [exact F|].
  split; [apply extract_code_any_str|].
  intros msg decoded. now rewrite extract_code_any_str.
Qed.

Ltac break_step H :=
  unfold step in H;
  repeat match type of H with
  | context [match ?e with EvStop => _ | _ => _ end] => destruct e
  | context [match pc ?r with _ => _ end] => destruct (pc r) eqn:?
  end;
  try discriminate H;
  try rewrite on_frame_eq in H;
  unfold handler, after_for, loop, finish, back_off in H; simpl in H;
  repeat match type of H with
  | context [if ?b then _ else _] => destruct b eqn:?
  end;
  injection H as <- <-.

Lemma step_consistent r e r1 out :
  consistent r -> step r e = Some (r1, out) -> consistent r1.
Proof.
  unfold consistent. intros C H.
  break_step H; simpl; try rewrite Heqp in *; simpl in *; auto; try tauto.
  destruct (pc r); tauto.
Qed.

Lemma run_snoc r0 es e :
  run r0 (es ++ [e]) =
  match run r0 es with
  | None => None
  | Some (r, tr) =>
    match step r e with
    | None => None
    | Some (r1, out) => Some (r1, tr ++ out)
    end
  end.
Proof.
  revert r0; induction es as [|e0 es IH]; intros r0; simpl.
  - destruct (step r0 e) as [[r1 out]|]; [|reflexivity]. now rewrite app_nil_r.
  - destruct (step r0 e0) as [[r1 out1]|]; [|reflexivity].
    rewrite IH. destruct (run r1 es) as [[r2 out2]|]; [|reflexivity].
    destruct (step r2 e) as [[r3 out3]|]; [|reflexivity].
    now rewrite app_assoc.
Qed.

(** Induction along a run, one event at a time. *)
Lemma run_ind (P : runner -> list effect -> Prop) (r0 : runner) :
  P r0 [] ->
  (forall r tr e r1 out, P r tr -> step r e = Some (r1, out) -> P r1 (tr ++ out)) ->
  forall es r tr, run r0 es = Some (r, tr) -> P r tr.
Proof.
  intros H0 Hs es. induction es as [|e es IH] using rev_ind; intros r tr.
  - simpl. now intros [= <- <-].
  - rewrite run_snoc. destruct (run r0 es) as [[r1 tr1]|]; [|discriminate].
    destruct (step r1 e) as [[r2 out]|] eqn:E; [|discriminate].
    intros [= <- <-]. eapply Hs; [apply IH; reflexivity | exact E].
Qed.

Lemma run_consistent es r tr :
  run ClientRunner es = Some (r, tr) -> consistent r.
Proof.
  apply (run_ind (fun r _ => consistent r)).
  - reflexivity.
  - intros. eapply step_consistent; eassumption.
Qed.

Lemma connected_receiving r : consistent r -> _status r = connected -> pc r = Receiving.
Proof.
  unfold consistent. destruct (pc r); intros C H; rewrite H in C;
    try discriminate; try reflexivity; destruct C; discriminate.
Qed.

(** *** Back-off *)

Lemma delay_double k : Z.min (delay k * 2) 30 = delay (S k).
Proof.
  unfold delay. rewrite Nat2Z.inj_succ, Z.pow_succ_r by lia.
  pose proof (Z.pow_pos_nonneg 2 (Z.of_nat k) ltac:(lia) ltac:(lia)). lia.
Qed.

Lemma delay_ceiling k : 5 <= k -> delay k = 30%Z.
Proof.
  intros H. unfold delay.
  assert (2 ^ 5 <= 2 ^ Z.of_nat k)%Z by (apply Z.pow_le_mono_r; lia).
  change (2 ^ 5)%Z with 32%Z in *. lia.
Qed.

Lemma waits_since_connected_app tr out : forall acc,
  waits_since_connected acc (tr ++ out) =
  waits_since_connected (waits_since_connected acc tr) out.
Proof.
  induction tr as [|e tr IH]; intros acc; simpl; [reflexivity|].
  destruct e as [[]| | |]; apply IH.
Qed.

Lemma delays_S n : delays (S n) = delays n ++ [delay n].
Proof. unfold delays. now rewrite seq_S, map_app. Qed.

Lemma backoff_inv_step r tr e r1 out :
  backoff_inv r tr -> step r e = Some (r1, out) -> backoff_inv r1 (tr ++ out).
Proof.
  unfold backoff_inv. rewrite waits_since_connected_app.
  set (w := waits_since_connected [] tr). intros (Hw & Hr) H.
  break_step H; simpl; try rewrite Heqp in *; simpl in *;
    repeat match goal with
    | H : _ /\ _ |- _ => destruct H
    | H : exists _, _ |- _ => destruct H
    | H : w = [] |- _ => rewrite H in *; clear H
    end; simpl in *;
    try (split; [assumption|]); auto;
    try (rewrite length_app; simpl; rewrite Nat.add_1_r, delays_S;
         split; [congruence | eexists; split; [reflexivity | assumption]]);
    try (split; [reflexivity | eexists; split; reflexivity]);
    try (match goal with H : List.length w = S _ |- _ => rewrite H end;
         match goal with H : retry _ = delay _ |- _ => rewrite H end;
         apply delay_double);
    try (match goal with H : retry _ = 1%Z |- _ => rewrite H end;
         split; [reflexivity | exists 0; split; reflexivity]).
Qed.

Lemma failures_run : forall n r k,
  pc r = Connecting -> stop_event r = false -> retry r = delay k ->
  exists r1,
    run r (failures n) = Some (r1, failure_trace k n) /\
    pc r1 = Connecting /\ stop_event r1 = false /\ retry r1 = delay (k + n).
Proof.
  induction n as [|n IH]; intros r k Hp Hs Hr.
  - exists r. rewrite Nat.add_0_r. auto.
  - destruct (IH (set_status
                    (set_retry (set_status (set_ws r false) error Sleeping)
                               (Z.min (retry r * 2) 30))
                    connecting Connecting) (S k))
      as (r1 & Hrun & Hp1 & Hs1 & Hr1);
      [reflexivity | exact Hs | simpl; rewrite Hr; apply delay_double |].
    exists r1. split.
    + cbn [failures run]. unfold step at 1. rewrite Hp.
      unfold handler. rewrite Hs. unfold back_off.
      unfold step at 1. cbn [pc set_status]. unfold loop.
      cbn [stop_event set_retry set_status set_ws]. rewrite Hs.
      cbn [retry set_status set_ws] in *. rewrite Hrun, Hr. reflexivity.
    + repeat split; try assumption. rewrite Hr1. f_equal. lia.
Qed.

Lemma failure_trace_waits : forall n k acc,
  waits_since_connected acc (failure_trace k n) = acc ++ map delay (seq k n).
Proof.
  induction n as [|n IH]; intros k acc; simpl.
  - now rewrite app_nil_r.
  - rewrite IH, <- app_assoc. reflexivity.
Qed.

(** C2. In every run, the waits since the status last became
    [connected] (or since the start) are 1, 2, 4, 8, 16, 30, 30, ...
    seconds in this order, and while the status is [connected] the
    variable [retry] is 1 again, so that the next wait is 1.  And the
    waits do take place, with the stop signal unset: each of [n]
    attempts that fail in a row is followed by a wait, the [j]-th of them
    of [delay (k + j)] seconds when [k] waits came before; a connection
    sets [retry] to 1 at once; a connection that ends, normally or by an
    exception, is followed by a wait of 1 second, after which [retry]
    is 2. *)
Theorem backoff_delays (es : list event) (r : runner) (tr : list effect) :
  run ClientRunner es = Some (r, tr) ->
  waits_since_connected [] tr
  = delays (List.length (waits_since_connected [] tr)) /\
  (_status r = connected ->
     waits_since_connected [] tr = [] /\ retry r = 1%Z) /\
  delays 8 = [1; 2; 4; 8; 16; 30; 30; 30]%Z /\
  (forall k, 5 <= k -> delay k = 30%Z) /\
  (pc r = Connecting -> stop_event r = false ->
     forall n, exists r1,
       run r (failures n)
       = Some (r1, failure_trace (List.length (waits_since_connected [] tr)) n) /\
       pc r1 = Connecting /\ stop_event r1 = false /\
       retry r1 = delay (List.length (waits_since_connected [] tr) + n)) /\
  (forall n k acc,
     waits_since_connected acc (failure_trace k n) = acc ++ map delay (seq k n)) /\
  (pc r = Connecting ->
     exists r1, step r EvConnected = Some (r1, [SetStatus connected]) /\
                _status r1 = connected /\ retry r1 = 1%Z) /\
  (_status r = connected -> stop_event r = false ->
     (exists r1 r2,
        step r EvClosed = Some (r1, [SetStatus disconnected; Wait 1]) /\
        step r1 EvWoken = Some (r2, [SetStatus connecting; Connect]) /\
        pc r2 = Connecting /\ stop_event r2 = false /\ retry r2 = 2%Z) /\
     (exists r1 r2,
        step r EvBroken = Some (r1, [SetStatus error; Wait 1]) /\
        step r1 EvWoken = Some (r2, [SetStatus connecting; Connect]) /\
        pc r2 = Connecting /\ stop_event r2 = false /\ retry r2 = 2%Z)).
Proof.
  intros H. pose proof (run_consistent _ _ _ H) as C.
  apply (run_ind backoff_inv) in H.
  - destruct H as (Hw & Hr). split; [exact Hw|]. split.
    { intros Hc. rewrite (connected_receiving _ C Hc) in Hr. exact Hr. }
    split; [reflexivity|]. split; [exact delay_ceiling|]. split.
    { intros Hp Hs n. rewrite Hp in Hr. now apply failures_run. }
    split; [exact failure_trace_waits|]. split.
    { intros Hp. unfold step. rewrite Hp. eexists. repeat split. }
    intros Hc Hs. pose proof (connected_receiving _ C Hc) as Hp.
    rewrite Hp in Hr. destruct Hr as (_ & Hr).
    split; eexists; eexists; unfold step at 1; rewrite Hp;
      unfold after_for, handler; cbn [stop_event set_ws]; rewrite Hs;
      unfold back_off; cbn [retry set_ws]; rewrite Hr;
      (split; [reflexivity|]); unfold step; cbn [pc set_status]; unfold loop;
      cbn [stop_event set_retry set_status set_ws]; rewrite Hs;
      (split; [reflexivity|]);
      cbn [pc stop_event retry set_retry set_status set_ws]; rewrite Hr;
      repeat split; assumption.
  - split; [reflexivity | split; reflexivity].
  - intros. eapply backoff_inv_step; eassumption.
Qed.

(** C3. In every reachable state whose status is [connected] and whose
    stop signal is unset: when the iteration over the connection ends
    normally the status becomes [disconnected] and [error] is not
    written; when the iteration raises, or the clipboard write of a
    non-empty result raises, the status becomes [error] and
    [disconnected] is not written. *)
Theorem connected_close_or_error (es : list event) (r : runner)
    (tr : list effect) :
  run ClientRunner es = Some (r, tr) ->
  _status r = connected -> stop_event r = false ->
  (exists r1, step r EvClosed
                = Some (r1, [SetStatus disconnected; Wait (retry r)]) /\
              _status r1 = disconnected) /\
  (exists r1, step r EvBroken = Some (r1, [SetStatus error; Wait (retry r)]) /\
              _status r1 = error) /\
  (forall msg decoded,
     extract_code (frame_text msg decoded) <> [] ->
     exists r1, step r (EvFrame msg decoded false)
                  = Some (r1, [SetStatus error; Wait (retry r)]) /\
                _status r1 = error).
Proof.
  intros H Hc Hs. apply run_consistent in H.
  pose proof (connected_receiving _ H Hc) as Hp.
  unfold step. rewrite Hp. repeat split.
  - unfold after_for. simpl. rewrite Hs. eexists. split; reflexivity.
  - unfold handler. rewrite Hs. eexists. split; reflexivity.
  - intros msg decoded Hne. rewrite on_frame_eq, Hs. simpl.
    destruct (extract_code (frame_text msg decoded)); [contradiction|].
    simpl. unfold handler. rewrite Hs. eexists. split; reflexivity.
Qed.

(** *** Stopping *)

Lemma step_stopped r e r1 out :
  stop_event r = true -> step r e = Some (r1, out) ->
  stop_event r1 = true /\ existsb is_connect out = false /\
  (observes_stop e = true -> pc r1 = Returned /\ out = [SetStatus stopped]).
Proof.
  intros Hs H. break_step H; simpl; try congruence; repeat split; try congruence;
    try discriminate.
Qed.

Lemma run_stopped es : forall r r1 tr,
  stop_event r = true -> run r es = Some (r1, tr) ->
  existsb is_connect tr = false.
Proof.
  induction es as [|e es IH]; intros r r1 tr Hs; simpl.
  - now intros [= <- <-].
  - destruct (step r e) as [[r2 out]|] eqn:E; [|discriminate].
    destruct (run r2 es) as [[r3 out3]|] eqn:E3; [|discriminate].
    intros [= <- <-]. apply (step_stopped _ _ _ _ Hs) in E as (Hs2 & Ho & _).
    rewrite existsb_app, Ho. eapply IH; eassumption.
Qed.

Lemma run_returned es : forall r r1 tr,
  pc r = Returned -> run r es = Some (r1, tr) ->
  tr = [] /\ _status r1 = _status r /\ pc r1 = Returned.
Proof.
  induction es as [|e es IH]; intros r r1 tr Hp; simpl.
  - intros [= <- <-]. auto.
  - destruct (step r e) as [[r2 out]|] eqn:E; [|discriminate].
    destruct (run r2 es) as [[r3 out3]|] eqn:E3; [|discriminate].
    intros [= <- <-]. unfold step in E. rewrite Hp in E.
    destruct e; try discriminate. injection E as <- <-.
    apply IH in E3; [|exact Hp]. simpl in *. exact E3.
Qed.

(** What a run keeps true of the end of its trace. *)
Lemma run_last_write es r tr :
  run ClientRunner es = Some (r, tr) ->
  pc r = Returned -> exists tr0, tr = tr0 ++ [SetStatus stopped].
Proof.
  apply (run_ind (fun r tr =>
    pc r = Returned -> exists tr0, tr = tr0 ++ [SetStatus stopped])).
  - discriminate.
  - intros r0 tr0 e r1 out IH H Hp.
    break_step H; simpl in Hp; try discriminate Hp; try congruence;
      try (now exists tr0).
    rewrite app_nil_r. auto.
Qed.

(** C4. The coroutine returns only with the stop signal set.  Once the
    signal is set, every event at which the code reads it makes the
    coroutine return with [stopped] as its only write, and no connection
    is attempted any more; after the return nothing is written at all. *)
Theorem stop_is_the_only_exit (es : list event) (r : runner) (tr : list effect) :
  run ClientRunner es = Some (r, tr) ->
  (pc r = Returned ->
     stop_event r = true /\ _status r = stopped /\
     exists tr0, tr = tr0 ++ [SetStatus stopped]) /\
  (stop_event r = true ->
     forall e r1 out, observes_stop e = true -> step r e = Some (r1, out) ->
       pc r1 = Returned /\ out = [SetStatus stopped]) /\
  (stop_event r = true ->
     forall es1 r1 tr1, run r es1 = Some (r1, tr1) ->
       existsb is_connect tr1 = false) /\
  (pc r = Returned ->
     forall es1 r1 tr1, run r es1 = Some (r1, tr1) ->
       tr1 = [] /\ _status r1 = stopped /\ pc r1 = Returned).
Proof.
  intros H. pose proof (run_consistent _ _ _ H) as C.
  assert (pc r = Returned -> _status r = stopped /\ stop_event r = true) as R.
  { intros Hp. unfold consistent in C. now rewrite Hp in C. }
  split; [|split; [|split]].
  - intros Hp. destruct (R Hp) as (Hst & Hs). repeat split; try assumption.
    eapply run_last_write; eassumption.
  - intros Hs e r1 out Ho He.
    destruct (step_stopped _ _ _ _ Hs He) as (_ & _ & Hret). exact (Hret Ho).
  - intros Hs es1 r1 tr1. apply run_stopped. exact Hs.
  - intros Hp es1 r1 tr1 H1.
    destruct (run_returned _ _ _ _ Hp H1) as (Htr & Hst & Hp1).
    destruct (R Hp) as (Hst0 & _). rewrite Hst0 in Hst. auto.
Qed.

(** *** Frames *)

(** C1, as the code has it.  For a frame that decodes to an object whose
    [text] member is a string with no isolated run of 4 to 8 digits, the
    stripped text itself is written to the clipboard when it is not
    empty; nothing is written only when it is empty. *)
Theorem text_without_code_is_copied (r : runner) (msg : pystr)
    (items : list (pystr * pyobj)) (shown t : pystr) :
  pc r = Receiving -> stop_event r = false ->
  dict_get items (py "text") (PyStr []) = PyStr t ->
  isolated_runs t = [] ->
  step r (EvFrame msg (Some (PyDict items shown)) true) =
  Some (r, match strip t with [] => [] | _ => [Copy (strip t)] end).
Proof.
  intros Hp Hs Ht Hr. unfold step. rewrite Hp, on_frame_eq, Hs.
  unfold frame_text. rewrite Ht. simpl.
  rewrite (extract_code_no_run _ Hr). now destruct (strip t).
Qed.

(** C5, as the code has it.  The text handed to extraction is the whole
    frame when [json.loads] raises or returns anything but an object; for
    an object it is [str()] of the [text] member, whatever its type, and
    the empty string when there is none.  Whatever the frame decodes to,
    the receive loop goes on in the same state when the clipboard write
    succeeds, and writes exactly when the extracted text is not empty. *)
Theorem frame_text_cases (msg : pystr) (decoded : option pyobj) :
  (decoded = None -> frame_text msg decoded = msg) /\
  (forall t, decoded = Some (PyStr t) -> frame_text msg decoded = msg) /\
  (forall b shown, decoded = Some (PyOther b shown) ->
     frame_text msg decoded = msg) /\
  (forall items shown, decoded = Some (PyDict items shown) ->
     frame_text msg decoded = py_str (dict_get items (py "text") (PyStr []))) /\
  (forall r, pc r = Receiving -> stop_event r = false ->
     step r (EvFrame msg decoded true)
     = Some (r, match extract_code (frame_text msg decoded) with
                | [] => []
                | c => [Copy c]
                end)).
Proof.
  repeat split; try (intros; subst; reflexivity).
  intros r Hp Hs. unfold step. rewrite Hp, on_frame_eq, Hs. simpl.
  now destruct (extract_code (frame_text msg decoded)).
Qed.

End RunFacts.

(** ** More about the matcher: it finds a match whenever there is one *)

Section Completeness.
Context {U : Unicode}.
Variable ignorecase : bool.
Variable s : pystr.

Lemma count_in_ge k l : forall hi n,
  (forall p, p < n ->
     exists c, nth_error l p = Some c /\ in_category k c = true) ->
  within hi n -> n <= count_in k hi l.
Proof.
  induction l as [|c l IH]; intros hi n Hall Hw.
  - destruct n; [simpl; lia|].
    destruct (Hall 0 ltac:(lia)) as (c & Hc & _). discriminate.
  - destruct n as [|n]; [lia|]. simpl.
    destruct (Hall 0 ltac:(lia)) as (c0 & [= <-] & ->).
    assert (forall p, p < n ->
              exists c0, nth_error l p = Some c0 /\ in_category k c0 = true) as Hl.
    { intros p Hp. apply (Hall (S p)). lia. }
    destruct hi as [[|h]|]; simpl in Hw.
    + lia.
    + apply le_n_S. apply IH; [exact Hl | simpl; lia].
    + apply le_n_S. apply IH; [exact Hl | exact I].
Qed.

Lemma give_back_reach (A : Type) lo (k : nat -> option A) n x : forall c,
  lo <= n <= c -> k n = Some x -> exists y, give_back lo c k = Some y.
Proof.
  induction c as [|c IH]; intros Hn Hk.
  - assert (n = 0) as -> by lia. simpl.
    destruct (0 <? lo) eqn:E; [apply Nat.ltb_lt in E; lia|].
    rewrite Hk. eauto.
  - simpl. destruct (S c <? lo) eqn:E; [apply Nat.ltb_lt in E; lia|].
    destruct (k (S c)) eqn:Kc; [eauto|].
    apply IH; [|assumption].
    destruct (Nat.eq_dec n (S c)) as [->|]; [congruence | lia].
Qed.

(** Whatever can match is found, if the continuation accepts it. *)
Lemma exec_complete r i g j g1 :
  Matches ignorecase s r i g j g1 ->
  forall (A : Type) (k : nat -> option span -> option A) x,
    k j g1 = Some x -> exists y, exec ignorecase s r i g k = Some y.
Proof.
  induction 1; intros A kont x Hk; simpl.
  - eauto.
  - rewrite H, H0. eauto.
  - rewrite H. eauto.
  - destruct (IHMatches2 A kont x Hk) as (y & Hy).
    apply (IHMatches1 A (fun j g' => exec ignorecase s r2 j g' kont) y Hy).
  - destruct (IHMatches A kont x Hk) as (y & ->). eauto.
  - destruct (exec ignorecase s r1 i g kont); [eauto|].
    apply (IHMatches A kont x Hk).
  - destruct (IHMatches A kont x Hk) as (y & ->). eauto.
  - destruct (exec ignorecase s r i g kont); eauto.
  - apply give_back_reach with (n := n) (x := x); [|assumption].
    split; [assumption|]. apply count_in_ge; [|assumption].
    intros p Hp. specialize (H1 p Hp). unfold at_in in H1.
    rewrite nth_error_skipn. destruct (nth_error s (i + p)); [eauto|discriminate].
  - apply (IHMatches A (fun j _ => kont j (Some (i, j))) x Hk).
  - rewrite H. eauto.
  - rewrite H. eauto.
Qed.

(** A match stays inside the text. *)
Lemma Matches_bounds r i g j g1 :
  Matches ignorecase s r i g j g1 ->
  i <= j /\ (i <= List.length s -> j <= List.length s).
Proof.
  induction 1; try assumption; try (split; lia).
  - assert (i < List.length s) by (apply nth_error_Some; congruence).
    split; lia.
  - apply at_in_lt in H. split; lia.
  - split; [lia|]. intros Hi. destruct n; [lia|].
    specialize (H1 n ltac:(lia)). apply at_in_lt in H1. lia.
Qed.

(** A pattern without a group matches the same span whatever group 1
    holds. *)
Lemma Matches_any_group r i g j g1 :
  Matches ignorecase s r i g j g1 -> has_group r = false ->
  forall g', Matches ignorecase s r i g' j g'.
Proof.
  induction 1; simpl; intros Hg g'; try discriminate;
    try (apply orb_false_iff in Hg as (Hg1 & Hg2));
    try (econstructor; eauto; fail).
Qed.

(** [re.search] returns the match at the first start index that has
    one. *)
Lemma search_from_first r a m : forall n i,
  (forall p, i <= p < a ->
     exec ignorecase s r p None
       (fun j g => Some {| m_start := p; m_end := j; m_group1 := g |}) = None) ->
  exec ignorecase s r a None
    (fun j g => Some {| m_start := a; m_end := j; m_group1 := g |}) = Some m ->
  i <= a < i + n ->
  search_from ignorecase r s n i = Some m.
Proof.
  induction n as [|n IH]; intros i Hbefore Ha Hi; [lia|]. simpl.
  destruct (Nat.eq_dec i a) as [->|Hne]; [now rewrite Ha|].
  rewrite (Hbefore i) by lia.
  apply IH; [|assumption|lia]. intros p Hp. apply Hbefore. lia.
Qed.

End Completeness.

(** ** Keywords near a run *)

Section Keywords.
Context {U : Unicode}.

Lemma gap_short ic s b g i g1 :
  Matches ic s gap b g i g1 -> short_gap s b i = true.
Proof.
  unfold gap. inversion 1; subst. simpl in *.
  unfold short_gap. replace (b + n - b) with n by lia.
  rewrite !andb_true_iff, !Nat.leb_le, forallb_forall.
  repeat split; try lia.
  intros x Hx. apply in_seq in Hx. replace x with (b + (x - b)) by lia.
  match goal with H : forall p, _ -> at_in _ _ _ = true |- _ => apply H end. lia.
Qed.

Lemma short_gap_matches ic s b g i :
  short_gap s b i = true -> Matches ic s gap b g i g.
Proof.
  unfold short_gap. rewrite !andb_true_iff, !Nat.leb_le, forallb_forall.
  intros ((Hle & H20) & Hall).
  replace i with (b + (i - b)) at 1 by lia.
  unfold gap. apply M_MaxRepeat; [lia | exact H20 |].
  intros p Hp. apply Hall, in_seq. lia.
Qed.

Lemma code_matches ic s i n g :
  isolated_run s i n = true -> Matches ic s code i g (i + n) (Some (i, i + n)).
Proof.
  intros H. apply isolated_run_spec in H as (Hn & Hd & Hb & Ha).
  unfold code; cbn [concat].
  eapply M_Concat; [apply M_AssertNotBehind; exact Hb|].
  eapply M_Concat;
    [eapply M_Group; apply (M_MaxRepeat ic s 4 (Some 8) DIGIT i g n);
       [lia | simpl; lia | exact Hd]|].
  eapply M_Concat; [apply M_AssertNotAhead; exact Ha | apply M_Empty].
Qed.

Lemma keyword_at_matches s a b :
  keyword_at s a b = true <-> exists g1, Matches true s keyword a None b g1.
Proof.
  unfold keyword_at. split.
  - destruct (exec _ _ _ _ _ _) eqn:E; [|discriminate]. intros _.
    apply exec_sound in E as (j & g1 & HM & Hk).
    destruct (Nat.eqb_spec j b) as [->|]; [eauto | discriminate].
  - intros (g1 & HM).
    destruct (exec_complete _ _ _ _ _ _ _ HM unit
                (fun j _ => if Nat.eqb j b then Some tt else None) tt)
      as (y & ->); [now rewrite Nat.eqb_refl | reflexivity].
Qed.

Lemma near_keyword_intro s a b i n :
  a <= List.length s -> b <= List.length s ->
  keyword_at s a b = true ->
  short_gap s b i = true \/ short_gap s (i + n) a = true ->
  near_keyword s i n = true.
Proof.
  intros Ha Hb Hk Hg. unfold near_keyword. apply existsb_exists.
  exists (a, b). split.
  - apply in_prod; apply in_seq; lia.
  - rewrite Hk. simpl. apply orb_true_iff. exact Hg.
Qed.

Lemma near_keyword_elim s i n :
  near_keyword s i n = true ->
  exists a b, a <= List.length s /\ keyword_at s a b = true /\
    (short_gap s b i = true \/ short_gap s (i + n) a = true).
Proof.
  unfold near_keyword. intros H. apply existsb_exists in H as ([a b] & Hin & H).
  apply in_prod_iff in Hin as (Ha & _). apply in_seq in Ha.
  apply andb_prop in H as (Hk & Hg). apply orb_true_iff in Hg.
  exists a, b. repeat split; [lia | assumption | assumption].
Qed.

(** A match of the first pattern ends in an isolated run with a keyword
    at most 20 non-digits before it. *)
Lemma keyword_then_code_near text m :
  search true keyword_then_code text = Some m ->
  exists i n, m_group1 m = Some (i, i + n) /\
    isolated_run text i n = true /\ near_keyword text i n = true.
Proof.
  intros E. apply search_sound in E as (a & Ha & _ & H).
  unfold keyword_then_code in H; cbn [concat] in H.
  apply Matches_Concat_inv in H as (j1 & h1 & H1 & H).
  apply Matches_Concat_inv in H as (j2 & h2 & H2 & H).
  apply Matches_Concat_inv in H as (j3 & h3 & H3 & H).
  apply Matches_Empty_inv in H as (_ & ->).
  pose proof (Matches_bounds _ _ _ _ _ _ _ H1) as (_ & B1).
  apply code_sound in H3 as (n & _ & -> & Hr).
  exists j2, n. repeat split; try assumption.
  apply near_keyword_intro with (a := a) (b := j1); try lia.
  - apply keyword_at_matches. eauto.
  - left. eapply gap_short; eassumption.
Qed.

(** A match of the second pattern starts with an isolated run with a
    keyword at most 20 non-digits after it. *)
Lemma code_then_keyword_near text m :
  search true code_then_keyword text = Some m ->
  exists i n, m_group1 m = Some (i, i + n) /\
    isolated_run text i n = true /\ near_keyword text i n = true.
Proof.
  intros E. apply search_sound in E as (a & Ha & _ & H).
  unfold code_then_keyword in H; cbn [concat] in H.
  apply Matches_Concat_inv in H as (j1 & h1 & H1 & H).
  apply Matches_Concat_inv in H as (j2 & h2 & H2 & H).
  apply Matches_Concat_inv in H as (j3 & h3 & H3 & H).
  apply Matches_Empty_inv in H as (_ & ->).
  apply code_sound in H1 as (n & -> & -> & Hr).
  pose proof (Matches_no_group _ _ _ _ _ _ _ H2 eq_refl) as ->.
  pose proof (Matches_no_group _ _ _ _ _ _ _ H3 has_group_keyword) as ->.
  pose proof (isolated_run_end _ _ _ Hr) as He.
  pose proof (Matches_bounds _ _ _ _ _ _ _ H2) as (_ & B2).
  pose proof (Matches_bounds _ _ _ _ _ _ _ H3) as (_ & B3).
  exists a, n. repeat split; try assumption.
  apply near_keyword_intro with (a := j2) (b := j3); try lia.
  - apply keyword_at_matches. exists None.
    eapply Matches_any_group; [exact H3 | apply has_group_keyword].
  - right. eapply gap_short; eassumption.
Qed.

(** With a keyword near some isolated run, one of the two keyword
    patterns matches. *)
Lemma near_keyword_found text i n :
  isolated_run text i n = true -> near_keyword text i n = true ->
  (exists m, search true keyword_then_code text = Some m) \/
  (exists m, search true code_then_keyword text = Some m).
Proof.
  intros Hr Hn. apply near_keyword_elim in Hn as (a & b & Ha & Hk & [Hg|Hg]).
  - left. apply keyword_at_matches in Hk as (g1 & Hk).
    assert (Matches true text keyword_then_code a None (i + n) (Some (i, i + n))) as HM.
    { unfold keyword_then_code; cbn [concat].
      eapply M_Concat; [exact Hk|].
      eapply M_Concat; [apply short_gap_matches; exact Hg|].
      eapply M_Concat; [apply code_matches; exact Hr | apply M_Empty]. }
    destruct (exec_complete _ _ _ _ _ _ _ HM Match
                (fun j g => Some {| m_start := a; m_end := j; m_group1 := g |})
                _ eq_refl) as (y & Hy).
    unfold search. eapply search_from_complete; [exact Hy | lia].
  - right. apply keyword_at_matches in Hk as (g1 & Hk).
    assert (Matches true text code_then_keyword i None b (Some (i, i + n))) as HM.
    { unfold code_then_keyword; cbn [concat].
      eapply M_Concat; [apply code_matches; exact Hr|].
      eapply M_Concat; [apply short_gap_matches; exact Hg|].
      eapply M_Concat; [|apply M_Empty].
      eapply Matches_any_group; [exact Hk | apply has_group_keyword]. }
    destruct (exec_complete _ _ _ _ _ _ _ HM Match
                (fun j g => Some {| m_start := i; m_end := j; m_group1 := g |})
                _ eq_refl) as (y & Hy).
    unfold search. eapply search_from_complete; [exact Hy|].
    apply isolated_run_end in Hr. lia.
Qed.

End Keywords.

(** ** More about [extract_code] *)

Section ExtractMore.
Context {U : Unicode}.

Lemma search_from_before ic r s m : forall n i,
  search_from ic r s n i = Some m ->
  forall p, i <= p < m_start m ->
    exec ic s r p None
      (fun j g => Some {| m_start := p; m_end := j; m_group1 := g |}) = None.
Proof.
  induction n as [|n IH]; intros i; simpl; [discriminate|].
  destruct (exec ic s r i None _) as [m'|] eqn:E.
  - intros [= ->] p Hp. apply exec_sound in E as (j & g1 & _ & [= <-]).
    simpl in Hp. lia.
  - intros H p Hp. destruct (Nat.eq_dec p i) as [->|]; [exact E|].
    apply (IH _ H). lia.
Qed.

Lemma isolated_run_same_start t i n n' :
  isolated_run t i n = true -> isolated_run t i n' = true -> n = n'.
Proof.
  intros H H'. apply isolated_run_spec in H as (_ & Hd & _ & Ha).
  apply isolated_run_spec in H' as (_ & Hd' & _ & Ha').
  destruct (Nat.lt_trichotomy n n') as [Hlt|[->|Hlt]]; [|reflexivity|].
  - rewrite (Hd' n Hlt) in Ha. discriminate.
  - rewrite (Hd n' Hlt) in Ha'. discriminate.
Qed.

(** The last pattern takes the leftmost isolated run. *)
Lemma search_code_first t m :
  search false code t = Some m ->
  exists i n, m_group1 m = Some (i, i + n) /\ isolated_run t i n = true /\
    forall i' n', isolated_run t i' n' = true -> i <= i'.
Proof.
  intros E. pose proof (search_from_before _ _ _ _ _ _ E) as Hb.
  apply search_sound in E as (a & _ & Hs & H).
  apply code_sound in H as (n & _ & Hg & Hr).
  exists a, n. repeat split; try assumption.
  intros i' n' Hr'. destruct (Nat.le_gt_cases a i') as [|Hlt]; [assumption|].
  rewrite Hs in Hb. specialize (Hb i' ltac:(lia)).
  erewrite exec_code_run in Hb; [discriminate | exact Hr' | reflexivity].
Qed.

(** What [extract_code] selects is an isolated run that has a keyword
    near it or is the leftmost one. *)
Lemma find_code_near_or_first t m :
  find_code t = Some m ->
  exists i n, m_group1 m = Some (i, i + n) /\ isolated_run t i n = true /\
    (near_keyword t i n = true \/
     forall i' n', isolated_run t i' n' = true -> i <= i').
Proof.
  unfold find_code.
  destruct (search true keyword_then_code t) as [m1|] eqn:E1.
  { intros [= <-]. apply keyword_then_code_near in E1 as (i & n & Hg & Hr & Hn).
    exists i, n. auto. }
  destruct (search true code_then_keyword t) as [m2|] eqn:E2.
  { intros [= <-]. apply code_then_keyword_near in E2 as (i & n & Hg & Hr & Hn).
    exists i, n. auto. }
  intros E3. apply search_code_first in E3 as (i & n & Hg & Hr & Hf).
  exists i, n. auto.
Qed.

Lemma slice_length t i n : i + n <= List.length t -> List.length (slice t i (i + n)) = n.
Proof.
  intros H. unfold slice. rewrite length_firstn, length_skipn. lia.
Qed.

Lemma slice_all t : slice t 0 (List.length t) = t.
Proof. unfold slice. rewrite Nat.sub_0_r. simpl. apply firstn_all. Qed.

(** A string of 4 to 8 decimal digits is its own code. *)
Lemma extract_code_digits d :
  forallb isdecimal d = true -> 4 <= List.length d <= 8 -> extract_code d = d.
Proof.
  intros Hd Hl. rewrite forallb_forall in Hd.
  assert (forall p, p < List.length d -> at_in DIGIT d p = true) as Hat.
  { intros p Hp. unfold at_in. destruct (nth_error d p) eqn:E.
    - apply Hd. eapply nth_error_In; eassumption.
    - apply nth_error_None in E. lia. }
  assert (isolated_run d 0 (List.length d) = true) as Hr.
  { apply isolated_run_spec. repeat split; try lia; try reflexivity.
    - intros p Hp. simpl. now apply Hat.
    - simpl. unfold at_in.
      now rewrite (proj2 (nth_error_None d (List.length d)) (le_n _)). }
  destruct (selected_span_some _ _ _ Hr) as ([a b] & E).
  pose proof (extract_code_selected d) as S. rewrite E in S.
  apply selected_span_isolated in E as (n & -> & Hr').
  pose proof (isolated_run_end _ _ _ Hr') as He.
  apply isolated_run_spec in Hr' as (Hn & _ & Hb & Ha).
  destruct a as [|a].
  - simpl in *. destruct (Nat.eq_dec n (List.length d)) as [->|Hne].
    + rewrite S. apply slice_all.
    + rewrite Hat in Ha by lia. discriminate.
  - simpl in Hb. rewrite Hat in Hb by lia. discriminate.
Qed.

Lemma extract_code_idem text :
  extract_code (extract_code text) = extract_code text.
Proof.
  destruct (find_code (strip text)) as [m|] eqn:E.
  - rewrite (extract_code_match text m (find_code_nonempty _ _ E) E).
    destruct (find_code_group _ _ E) as (i & n & Hg & Hr).
    unfold group1. rewrite Hg.
    pose proof (isolated_run_isdecimal _ _ _ Hr) as Hd.
    apply andb_prop in Hd as (_ & Hd).
    apply extract_code_digits; [exact Hd|].
    rewrite slice_length by (eapply isolated_run_end; eassumption).
    apply isolated_run_spec in Hr. tauto.
  - rewrite (extract_code_no_match text E).
    rewrite (extract_code_no_match (strip text)); rewrite strip_idem;
      [reflexivity | assumption].
Qed.

(** X1. The result is a contiguous piece of the argument: nothing is
    added and nothing is reordered. *)
Theorem extract_code_is_a_slice (text : pystr) :
  exists a b, a <= b <= List.length text /\ extract_code text = slice text a b.
Proof.
  pose proof (extract_code_selected text) as S.
  destruct (selected_span text) as [[a b]|] eqn:E.
  - apply selected_span_isolated in E as (n & -> & Hr).
    apply isolated_run_end in Hr. exists a, (a + n). split; [lia | exact S].
  - destruct (strip_split text) as (a & b & Et & _ & _ & _).
    exists (List.length a), (List.length a + List.length (strip text)). split.
    + rewrite Et at 3. rewrite !length_app. lia.
    + rewrite S. rewrite Et at 2.
      pose proof (slice_pad a (strip text) b 0 (List.length (strip text))
                    (Nat.le_refl _)) as P.
      rewrite Nat.add_0_r in P. rewrite P. simpl. symmetry. apply slice_all.
Qed.

(** X2. When the argument has an isolated run of 4 to 8 digits, the
    result is one of these runs: a string of 4 to 8 decimal digits,
    never the text around it. *)
Theorem extract_code_is_a_run (text : pystr) :
  isolated_runs text <> [] ->
  exists i n, In (i, n) (isolated_runs text) /\
    extract_code text = slice text i (i + n) /\
    str_isdecimal (extract_code text) = true /\
    List.length (extract_code text) = n /\ 4 <= n <= 8.
Proof.
  intros Hne. destruct (isolated_runs text) as [|[i0 n0] l] eqn:El; [contradiction|].
  assert (isolated_run text i0 n0 = true) as H0.
  { apply isolated_runs_spec. rewrite El. now left. }
  destruct (selected_span_some _ _ _ H0) as ([a b] & E).
  pose proof (extract_code_selected text) as S. rewrite E in S.
  apply selected_span_isolated in E as (n & -> & Hr).
  exists a, n. rewrite <- El. split; [now apply isolated_runs_spec|].
  split; [exact S|]. rewrite S. split; [now apply isolated_run_isdecimal|].
  split; [apply slice_length; eapply isolated_run_end; eassumption|].
  apply isolated_run_spec in Hr. tauto.
Qed.

(** X3. Extraction is idempotent on every argument: extracting from a
    result gives that result again. *)
Theorem extract_code_idempotent (text : pystr) :
  extract_code (extract_code text) = extract_code text.
Proof. apply extract_code_idem. Qed.

(** X4. When no isolated run of the stripped text has a keyword within
    20 non-digit characters, the result is the leftmost isolated run. *)
Theorem fallback_takes_first_run (text : pystr) (i n : nat) :
  (forall i' n', isolated_run (strip text) i' n' = true ->
                 near_keyword (strip text) i' n' = false) ->
  isolated_run (strip text) i n = true ->
  (forall i' n', isolated_run (strip text) i' n' = true -> i <= i') ->
  extract_code text = slice (strip text) i (i + n).
Proof.
  intros Hfar Hr Hfirst.
  destruct (find_code_complete _ _ _ Hr) as (m & E).
  rewrite (extract_code_match text m (find_code_nonempty _ _ E) E).
  apply find_code_near_or_first in E as (i0 & n0 & Hg & Hr0 & [Hn|Hf]).
  - rewrite (Hfar _ _ Hr0) in Hn. discriminate.
  - assert (i0 = i) as ->.
    { apply Nat.le_antisymm; [exact (Hf _ _ Hr) | exact (Hfirst _ _ Hr0)]. }
    rewrite (isolated_run_same_start _ _ _ _ Hr0 Hr) in Hg.
    unfold group1. now rewrite Hg.
Qed.

(** X5. When some isolated run of the stripped text has a keyword within
    20 non-digit characters, the result is such a run, also when another
    number stands earlier in the text. *)
Theorem keyword_run_preferred (text : pystr) (i n : nat) :
  isolated_run (strip text) i n = true ->
  near_keyword (strip text) i n = true ->
  exists i' n', isolated_run (strip text) i' n' = true /\
    near_keyword (strip text) i' n' = true /\
    extract_code text = slice (strip text) i' (i' + n').
Proof.
  intros Hr Hn.
  assert (exists m i' n', find_code (strip text) = Some m /\
            m_group1 m = Some (i', i' + n') /\
            isolated_run (strip text) i' n' = true /\
            near_keyword (strip text) i' n' = true) as (m & i' & n' & E & Hg & Hr' & Hn').
  { unfold find_code.
    destruct (search true keyword_then_code (strip text)) as [m1|] eqn:E1.
    - destruct (keyword_then_code_near _ _ E1) as (i' & n' & H). exists m1, i', n'. tauto.
    - destruct (near_keyword_found _ _ _ Hr Hn) as [(m & E)|(m & E)]; [congruence|].
      rewrite E.
      destruct (code_then_keyword_near _ _ E) as (i' & n' & H). exists m, i', n'. tauto. }
  exists i', n'. repeat split; try assumption.
  rewrite (extract_code_match text m (find_code_nonempty _ _ E) E).
  unfold group1. now rewrite Hg.
Qed.

End ExtractMore.

(** ** More about [ClientRunner.run] *)

Section RunMore.
Context {U : Unicode}.

Ltac step_cases H :=
  unfold step in H;
  repeat match type of H with
  | context [match ?e with EvStop => _ | _ => _ end] => destruct e
  | context [match pc ?r with _ => _ end] => destruct (pc r) eqn:?
  end;
  try discriminate H;
  try rewrite on_frame_eq in H;
  unfold handler, after_for, loop, finish, back_off in H; simpl in H;
  repeat match type of H with
  | context [if ?b then _ else _] => destruct b eqn:?
  end;
  injection H as <- <-.

Lemma last_status_app tr out : forall s0,
  last_status s0 (tr ++ out) = last_status (last_status s0 tr) out.
Proof.
  induction tr as [|e tr IH]; intros s0; simpl; [reflexivity|].
  destruct e; apply IH.
Qed.

Lemma waited_after_app tr out : forall w,
  waited_after w (tr ++ out) = waited_after (waited_after w tr) out.
Proof.
  induction tr as [|e tr IH]; intros w; simpl; [reflexivity|].
  destruct e; apply IH.
Qed.

Lemma waits_between_connects_app tr out : forall w,
  waits_between_connects w (tr ++ out)
  = waits_between_connects w tr
    && waits_between_connects (waited_after w tr) out.
Proof.
  induction tr as [|e tr IH]; intros w; simpl; [reflexivity|].
  destruct e; rewrite ?IH; try reflexivity.
  now rewrite andb_assoc.
Qed.

(** X6. In every run [retry] stays between 1 and 30, and so does every
    wait that is asked for. *)
Theorem retry_within_bounds (es : list event) (r : runner) (tr : list effect) :
  run ClientRunner es = Some (r, tr) ->
  (1 <= retry r <= 30)%Z /\ Forall wait_in_bounds tr.
Proof.
  apply (run_ind (fun r tr => (1 <= retry r <= 30)%Z /\ Forall wait_in_bounds tr)).
  - split; [simpl; lia | constructor].
  - intros r0 tr0 e r1 out (Hr & Hf) H.
    step_cases H; simpl; (split; [lia|]); apply Forall_app; split;
      try assumption; repeat constructor; simpl; lia.
Qed.

(** X7. Nothing empty is ever written to the clipboard, and what is
    written is a code or a stripped text: [extract_code] leaves it
    unchanged.  This holds from any state of the runner. *)
Theorem clipboard_gets_results (r0 : runner) (es : list event) (r : runner)
    (tr : list effect) :
  run r0 es = Some (r, tr) -> Forall copy_is_result tr.
Proof.
  apply (run_ind (fun _ tr => Forall copy_is_result tr)).
  - constructor.
  - intros r1 tr1 e r2 out Hf H. apply Forall_app. split; [assumption|].
    step_cases H; repeat constructor; simpl.
    + intros E. rewrite E in Heqb0. discriminate.
    + apply extract_code_idem.
Qed.

(** X8. The runner never connects twice in a row: between two calls of
    [websockets.connect] it has always waited. *)
Theorem no_reconnect_without_wait (es : list event) (r : runner)
    (tr : list effect) :
  run ClientRunner es = Some (r, tr) ->
  waits_between_connects true tr = true.
Proof.
  intros H.
  apply (run_ind (fun r tr =>
           waits_between_connects true tr = true /\
           match pc r with
           | NotStarted | Sleeping => waited_after true tr = true
           | _ => True
           end)) in H; [tauto | split; reflexivity |].
  clear. intros r tr e r1 out (Hok & Hw) H.
  rewrite waits_between_connects_app, waited_after_app, Hok.
  step_cases H; simpl; try rewrite Heqp in *; simpl in *;
    try rewrite Hw; try (split; [reflexivity | exact I]);
    try (split; reflexivity).
  destruct (pc r); auto.
Qed.

Lemma step_frame r f :
  pc r = Receiving -> stop_event r = false ->
  step r (frame_event f) = Some (r, copy_of f).
Proof.
  intros Hp Hs. unfold step, frame_event, copy_of. rewrite Hp, on_frame_eq, Hs.
  simpl. now destruct (extract_code (frame_text (fst f) (snd f))).
Qed.

(** X9. Frames are handled one by one in the order they arrive: while
    connected, with the stop signal unset and the clipboard working, the
    clipboard writes are the non-empty results for the frames in their
    order, and the runner stays in the receive loop as it was. *)
Theorem frames_in_order (r : runner) (frames : list (pystr * option pyobj)) :
  pc r = Receiving -> stop_event r = false ->
  run r (map frame_event frames) = Some (r, flat_map copy_of frames).
Proof.
  intros Hp Hs. induction frames as [|f fs IH]; [reflexivity|].
  cbn [map run flat_map]. rewrite (step_frame r f Hp Hs). now rewrite IH.
Qed.

(** X10. From any state with the stop signal set, whatever happens next,
    the runner writes nothing to the clipboard, asks for no wait and
    starts no connection: the trace holds status writes only,
    [connected] (a connection that was under way) or [stopped]. *)
Theorem after_stop_only_status (r : runner) (es : list event) (r1 : runner)
    (tr : list effect) :
  stop_event r = true -> run r es = Some (r1, tr) ->
  stop_event r1 = true /\
  Forall (fun e => e = SetStatus connected \/ e = SetStatus stopped) tr.
Proof.
  intros Hs H.
  apply (run_ind (fun r tr =>
           stop_event r = true /\
           Forall (fun e => e = SetStatus connected \/ e = SetStatus stopped) tr))
    in H; [exact H | split; [exact Hs | constructor] |].
  clear. intros r tr e r1 out (Hs & Hf) H.
  step_cases H; simpl; try congruence;
    (split; [assumption || reflexivity|]); apply Forall_app; split;
    try assumption; repeat (apply Forall_cons || apply Forall_nil); auto.
Qed.

(** X11. In every run the status is the one written last, it goes with
    the suspension point ([idle] before the start, [connecting] in the
    connect, [connected] in the receive loop, [disconnected] or [error]
    in the wait, [stopped] after the return), and [self.ws] is set in the
    receive loop and nowhere else before the return. *)
Theorem status_tracks_phase (es : list event) (r : runner) (tr : list effect) :
  run ClientRunner es = Some (r, tr) ->
  _status r = last_status idle tr /\ consistent r /\ ws_inv r.
Proof.
  intros H. split; [|split; [eapply run_consistent; eassumption|]].
  - apply (run_ind (fun r tr => _status r = last_status idle tr)) in H;
      [exact H | reflexivity |].
    clear. intros r tr e r1 out Hl H. rewrite last_status_app, <- Hl.
    step_cases H; reflexivity.
  - apply (run_ind (fun r _ => ws_inv r)) in H; [exact H | |].
    + split; simpl; [discriminate | discriminate].
    + clear. unfold ws_inv. intros r tr e r1 out (Hw & Hr) H.
      step_cases H; simpl; try rewrite Heqp in *;
        split; intros; try discriminate; try congruence; auto;
        try (destruct (Hw ltac:(assumption)); congruence).
Qed.

End RunMore.

(** ** Configuration *)

Lemma str_eqb_eq a : forall b, str_eqb a b = true <-> a = b.
Proof.
  induction a as [|x a IH]; intros [|y b]; simpl; split; try discriminate;
    try reflexivity.
  - intros H. apply andb_prop in H as (Hx & Hab).
    apply N.eqb_eq in Hx. apply IH in Hab. congruence.
  - intros [= -> ->]. rewrite N.eqb_refl. now apply IH.
Qed.

Lemma str_eqb_refl a : str_eqb a a = true.
Proof. now apply str_eqb_eq. Qed.

Section ConfigFacts.
Context {U : Unicode}.
Variable lower : pystr -> pystr.

Lemma pick_usable (_cfg : list (pystr * pyobj))
    (environ : list (pystr * pystr)) (key env_key : pystr) (default : pyobj) :
  is_None default = false -> not_blank default = true ->
  is_None (pick _cfg environ key env_key default) = false /\
  not_blank (pick _cfg environ key env_key default) = true.
Proof.
  intros Hn Hb. unfold pick.
  assert (let e := match environ_get environ env_key with
                   | Some v => if not_blank (PyStr v) then PyStr v else default
                   | None => default
                   end in is_None e = false /\ not_blank e = true) as He.
  { simpl. destruct (environ_get environ env_key) as [v|]; [|auto].
    destruct (not_blank (PyStr v)) eqn:E; auto. }
  simpl in He. destruct (dict_find _cfg key) as [v|]; [|exact He].
  destruct (negb (is_None v) && not_blank v) eqn:E; [|exact He].
  apply andb_prop in E as (E1 & E2). apply negb_true_iff in E1. auto.
Qed.

(** X12. [pick] never gives [None] or a blank value when its default is
    neither: a value of the file or of the environment is taken only
    when it is not blank. *)
Theorem pick_not_blank (_cfg : list (pystr * pyobj))
    (environ : list (pystr * pystr)) (key env_key : pystr) (default : pyobj) :
  is_None default = false -> not_blank default = true ->
  is_None (pick _cfg environ key env_key default) = false /\
  not_blank (pick _cfg environ key env_key default) = true.
Proof. apply pick_usable. Qed.

Lemma not_blank_strip o : not_blank o = true -> strip (py_str o) <> [].
Proof.
  unfold not_blank. intros H E. rewrite E in H. discriminate.
Qed.

Lemma strip_not_blank s : strip s <> [] -> not_blank (PyStr s) = true.
Proof.
  unfold not_blank. simpl. intros H. destruct (strip s); [contradiction | reflexivity].
Qed.

(** X13. Provided the two literal defaults are not blank, the host, the
    room and the token of the module are never blank, whatever the file
    and the environment hold; and with no token in either, the token is
    the room. *)
Theorem settings_not_blank (_cfg : list (pystr * pyobj))
    (environ : list (pystr * pystr)) :
  strip (py "example.com") <> [] -> strip (py "YOUR_ROOM_KEY") <> [] ->
  strip (BASE (resolve lower _cfg environ)) <> [] /\
  strip (ROOM (resolve lower _cfg environ)) <> [] /\
  strip (TOKEN (resolve lower _cfg environ)) <> [] /\
  (dict_find _cfg (py "token") = None ->
   environ_get environ (py "CP_TOKEN") = None ->
   TOKEN (resolve lower _cfg environ) = ROOM (resolve lower _cfg environ)).
Proof.
  intros Hb Hr. simpl.
  assert (strip (py_str (pick _cfg environ (py "room") (py "CP_ROOM")
                           (PyStr (py "YOUR_ROOM_KEY")))) <> []) as Hroom.
  { apply not_blank_strip, pick_usable; [reflexivity|].
    now apply strip_not_blank. }
  repeat split.
  - apply not_blank_strip, pick_usable; [reflexivity|].
    now apply strip_not_blank.
  - exact Hroom.
  - apply not_blank_strip, pick_usable; [reflexivity|].
    now apply strip_not_blank.
  - intros Hc He. unfold pick. now rewrite Hc, He.
Qed.

(** X14. The scheme is always ws or wss, whatever the file holds. *)
Theorem scheme_ws_or_wss (_cfg : list (pystr * pyobj))
    (environ : list (pystr * pystr)) :
  SCHEME (resolve lower _cfg environ) = py "ws" \/
  SCHEME (resolve lower _cfg environ) = py "wss".
Proof.
  simpl. unfold scheme_of.
  assert ((if is_bool (dict_get _cfg (py "use_tls") py_None)
           then (if truth (dict_get _cfg (py "use_tls") py_None)
                 then py "wss" else py "ws")
           else py "wss") = py "ws" \/
          (if is_bool (dict_get _cfg (py "use_tls") py_None)
           then (if truth (dict_get _cfg (py "use_tls") py_None)
                 then py "wss" else py "ws")
           else py "wss") = py "wss") as Htls.
  { destruct (is_bool _); [|auto]. destruct (truth _); auto. }
  destruct (dict_get _cfg (py "scheme") py_None) as [raw| |]; try exact Htls.
  destruct (str_eqb (lower raw) (py "ws")) eqn:E1.
  - left. now apply str_eqb_eq.
  - destruct (str_eqb (lower raw) (py "wss")) eqn:E2; simpl.
    + right. now apply str_eqb_eq.
    + exact Htls.
Qed.

End ConfigFacts.

Lemma first_config_spec fs cands :
  (Forall (skipped fs) cands /\ first_config fs cands = ([], [])) \/
  (exists before p after data,
     cands = before ++ p :: after /\ Forall (skipped fs) before /\
     fs p = Json data /\
     first_config fs cands
     = (match data with PyDict items _ => items | _ => [] end, p)).
Proof.
  induction cands as [|q cands IH]; simpl.
  - left. split; [constructor | reflexivity].
  - destruct (fs q) as [| |data] eqn:E.
    + destruct IH as [(Hf & ->)|(before & p & after & data & -> & Hf & Hp & ->)].
      * left. split; [constructor; [now left | assumption] | reflexivity].
      * right. exists (q :: before), p, after, data.
        repeat split; try assumption. constructor; [now left | assumption].
    + destruct IH as [(Hf & ->)|(before & p & after & data & -> & Hf & Hp & ->)].
      * left. split; [constructor; [now right | assumption] | reflexivity].
      * right. exists (q :: before), p, after, data.
        repeat split; try assumption. constructor; [now right | assumption].
    + right. exists [], q, cands, data.
      repeat split; [constructor | assumption | now destruct data].
Qed.

(** X15. [load_config] returns the first candidate, in the order exe
    directory (when frozen), script directory, shared directory, working
    directory, that exists and parses; missing and unreadable files
    before it are passed over, candidates after it are not looked at,
    also when it holds something other than an object (the configuration
    is then empty).  With no such candidate the configuration is empty
    and the path is the empty string. *)
Theorem load_config_first_readable (h : host) (fs : pystr -> file_state) :
  (Forall (skipped fs) (candidates h) /\ load_config h fs = ([], [])) \/
  (exists before p after data,
     candidates h = before ++ p :: after /\ Forall (skipped fs) before /\
     fs p = Json data /\
     load_config h fs
     = (match data with PyDict items _ => items | _ => [] end, p)).
Proof. apply first_config_spec. Qed.

(** ** Headers *)

Section HeaderFacts.
Context {U : Unicode}.

Lemma add_header_of out item :
  add_header out item
  = match header_of item with
    | Some (k, v) => header_set out k v
    | None => out
    end.
Proof.
  unfold add_header, header_of. destruct (split_colon item) as [[k v]|]; [|reflexivity].
  now destruct (strip k).
Qed.

Lemma header_of_clean item k v : header_of item = Some (k, v) -> clean_header (k, v).
Proof.
  unfold header_of, clean_header. destruct (split_colon item) as [[k0 v0]|]; [|discriminate].
  destruct (strip k0) eqn:E; [discriminate|]. intros [= <- <-]. simpl.
  rewrite <- E. repeat split; try apply strip_idem. rewrite E. discriminate.
Qed.

Lemma header_set_keys out k v :
  Forall clean_header out -> clean_header (k, v) -> NoDup (map fst out) ->
  Forall clean_header (header_set out k v) /\
  NoDup (map fst (header_set out k v)) /\
  (forall q, In q (map fst (header_set out k v)) -> q = k \/ In q (map fst out)).
Proof.
  intros Hf Hc. induction out as [|[k0 v0] out IH]; simpl; intros Hn.
  - split; [|split].
    + apply Forall_cons; [exact Hc | apply Forall_nil].
    + apply NoDup_cons; [intros [] | apply NoDup_nil].
    + intros q [<-|[]]. now left.
  - inversion Hf as [|? ? Hc0 Hf0]; subst. inversion Hn as [|? ? Hnot Hn0]; subst.
    destruct (str_eqb k0 k) eqn:E.
    + apply str_eqb_eq in E as ->. simpl. repeat split.
      * constructor; [|assumption]. unfold clean_header in *. simpl in *. tauto.
      * exact Hn.
      * intros q Hq. now right.
    + destruct (IH Hf0 Hn0) as (IH1 & IH2 & IH3). simpl. repeat split.
      * constructor; assumption.
      * constructor; [|assumption]. intros Hin. apply IH3 in Hin as [->|Hin].
        -- rewrite str_eqb_refl in E. discriminate.
        -- contradiction.
      * intros q [<-|Hq]; [right; now left|].
        apply IH3 in Hq as [->|Hq]; [now left | right; now right].
Qed.

(** X16. Every header [parse_extra_headers] returns has a key that is
    not empty, key and value carry no white space at either end, and no
    key comes twice. *)
Theorem parsed_headers_clean (raw_headers : list pystr) :
  Forall clean_header (parse_extra_headers raw_headers) /\
  NoDup (map fst (parse_extra_headers raw_headers)).
Proof.
  unfold parse_extra_headers.
  assert (forall out, Forall clean_header out -> NoDup (map fst out) ->
            Forall clean_header (fold_left add_header raw_headers out) /\
            NoDup (map fst (fold_left add_header raw_headers out))) as G.
  { induction raw_headers as [|item rest IH]; intros out Hf Hn; simpl; [auto|].
    rewrite add_header_of. destruct (header_of item) as [[k v]|] eqn:E; [|auto].
    destruct (header_set_keys out k v Hf (header_of_clean _ _ _ E) Hn)
      as (H1 & H2 & _). auto. }
  apply G; constructor.
Qed.

Lemma header_get_set out k v q :
  header_get (header_set out k v) q
  = if str_eqb k q then Some v else header_get out q.
Proof.
  induction out as [|[k0 v0] out IH]; simpl.
  - reflexivity.
  - destruct (str_eqb k0 k) eqn:E; simpl.
    + apply str_eqb_eq in E as ->. now destruct (str_eqb k q).
    + rewrite IH. destruct (str_eqb k0 q) eqn:E0; [|reflexivity].
      apply str_eqb_eq in E0 as ->.
      destruct (str_eqb k q) eqn:E1; [|reflexivity].
      apply str_eqb_eq in E1 as ->. rewrite str_eqb_refl in E. discriminate.
Qed.

(** X17. Looking a key up in the parsed headers gives the value of the
    last item that stands for this key, and nothing when no item does:
    items without a colon or with an empty key count for nothing, a
    later item replaces an earlier one. *)
Theorem parsed_headers_last_wins (raw_headers : list pystr) (k : pystr) :
  header_get (parse_extra_headers raw_headers) k
  = last_header raw_headers k None.
Proof.
  unfold parse_extra_headers.
  change None with (header_get [] k) at 1.
  generalize (@nil (pystr * pystr)).
  induction raw_headers as [|item rest IH]; intros out; simpl; [reflexivity|].
  rewrite IH, add_header_of. destruct (header_of item) as [[k' v]|]; [|reflexivity].
  now rewrite header_get_set.
Qed.

End HeaderFacts.

(** ** Examples *)

Section Examples.
Local Existing Instance Basic.tables.
Import Example.

(** The cases of [tests/unit/test_extract_code.py]. *)
Example test_extract_code :
  map (fun s => extract_code (py s))
    [ "验证码931018，15分钟内有效。"; "您本次登录验证码是 4827，请勿泄露。";
      "动态码： 000123 ，请在5分钟内使用。"; "验证码：12345678，若非本人请忽略。";
      "订单号20260215，验证码654321。"; "您的验证码为9310189（7位）。";
      "Your verification code is 741952. It expires in 10 minutes.";
      "Use OTP 4831 to sign in."; "Login code: 009876. Do not share it.";
      "Your one-time passcode is 12345678."; "Ref: 20260215, OTP: 654321";
      "741952 is your OTP code."; "Security code is 123.";
      "No digits here." ]%string
  = map py
    [ "931018"; "4827"; "000123"; "12345678"; "654321"; "9310189"; "741952";
      "4831"; "009876"; "12345678"; "654321"; "741952";
      "Security code is 123."; "No digits here." ]%string.
Proof. vm_compute. reflexivity. Qed.

(** The end-to-end scenarios of the design: a frame with a code, and two
    failed attempts before a connection. *)
Example frame_with_code :
  option_map snd
    (run ClientRunner
       [EvStart; EvConnected;
        EvFrame (frame "text" "您正在进行短信登录，验证码931018，切勿泄露")
                (loads "text" "您正在进行短信登录，验证码931018，切勿泄露") true])
  = Some [SetStatus connecting; Connect; SetStatus connected;
          Copy (py "931018")].
Proof. vm_compute. reflexivity. Qed.

Example third_attempt_connects :
  run ClientRunner
    [EvStart; EvConnectFailed; EvWoken; EvConnectFailed; EvWoken; EvConnected]
  = Some (receiving,
          [SetStatus connecting; Connect; SetStatus error; Wait 1;
           SetStatus connecting; Connect; SetStatus error; Wait 2;
           SetStatus connecting; Connect; SetStatus connected]).
Proof. vm_compute. reflexivity. Qed.

Lemma extract_code_blank_or_no_run_witness :
  extract_code (py "   ") = [] /\
  extract_code (py " No digits here. ") = strip (py " No digits here. ").
Proof.
  split.
  - apply (proj1 (extract_code_blank_or_no_run _)). reflexivity.
  - apply (proj2 (proj2 (extract_code_blank_or_no_run _))). reflexivity.
Defined.


Lemma embedded_run_not_selected_witness :
  embedded_run (py "订单号202602151234，验证码654321。") 3 8 = true /\
  selected_span (py "订单号202602151234，验证码654321。") <> Some (3, 3 + 8).
Proof.
  split; [reflexivity|]. apply embedded_run_not_selected. reflexivity.
Defined.

Lemma extract_code_fixed_point_witness :
  str_isdecimal (extract_code (py "Security code is 123.")) = false /\
  extract_code (extract_code (py "Security code is 123."))
  = extract_code (py "Security code is 123.").
Proof.
  split; [reflexivity|]. apply extract_code_fixed_point. reflexivity.
Defined.

Lemma extract_code_any_total_witness :
  truth (PyOther false (py "0")) = false /\
  extract_code_any (PyOther false (py "0")) = Ok [].
Proof.
  split; [reflexivity|].
  apply (proj1 (proj2 extract_code_any_total)). reflexivity.
Defined.

Lemma backoff_delays_witness :
  (exists r tr,
     run ClientRunner [EvStart; EvConnected] = Some (r, tr) /\
     _status r = connected /\ stop_event r = false /\
     exists r1 r2,
       step r EvClosed = Some (r1, [SetStatus disconnected; Wait 1]) /\
       step r1 EvWoken = Some (r2, [SetStatus connecting; Connect]) /\
       pc r2 = Connecting /\ stop_event r2 = false /\ retry r2 = 2%Z) /\
  (exists r tr,
     run ClientRunner [EvStart; EvConnected; EvClosed; EvWoken] = Some (r, tr) /\
     pc r = Connecting /\ stop_event r = false /\
     waits_since_connected [] tr = [1]%Z /\
     waits_since_connected [] (failure_trace 1 6) = [2; 4; 8; 16; 30; 30]%Z /\
     exists r1,
       run r (failures 6)
       = Some (r1, failure_trace (List.length (waits_since_connected [] tr)) 6) /\
       pc r1 = Connecting /\ stop_event r1 = false /\
       retry r1 = delay (List.length (waits_since_connected [] tr) + 6)).
Proof.
  split.
  - eexists. eexists.
    match goal with |- ?A /\ _ => assert A as H by (vm_compute; reflexivity) end.
    split; [exact H|]. split; [reflexivity|]. split; [reflexivity|].
    destruct (backoff_delays _ _ _ H) as (_ & _ & _ & _ & _ & _ & _ & HT).
    exact (proj1 (HT eq_refl eq_refl)).
  - eexists. eexists.
    match goal with |- ?A /\ _ => assert A as H by (vm_compute; reflexivity) end.
    split; [exact H|]. split; [reflexivity|]. split; [reflexivity|].
    split; [reflexivity|]. split; [vm_compute; reflexivity|].
    destruct (backoff_delays _ _ _ H) as (_ & _ & _ & _ & HF & _).
    exact (HF eq_refl eq_refl 6).
Defined.

Lemma connected_close_or_error_witness :
  run ClientRunner [EvStart; EvConnected]
  = Some (receiving, [SetStatus connecting; Connect; SetStatus connected]) /\
  exists r1, step receiving EvClosed
             = Some (r1, [SetStatus disconnected; Wait (retry receiving)]) /\
             _status r1 = disconnected.
Proof.
  split; [reflexivity|].
  apply (proj1 (connected_close_or_error [EvStart; EvConnected] receiving _
                  eq_refl eq_refl eq_refl)).
Defined.

Lemma stop_is_the_only_exit_witness :
  exists r tr,
    run ClientRunner [EvStart; EvConnectFailed; EvStop; EvWoken] = Some (r, tr) /\
    pc r = Returned /\
    stop_event r = true /\ _status r = stopped /\
    exists tr0, tr = tr0 ++ [SetStatus stopped].
Proof.
  eexists. eexists. split; [vm_compute; reflexivity|].
  split; [reflexivity|].
  apply (proj1 (stop_is_the_only_exit
    [EvStart; EvConnectFailed; EvStop; EvWoken] _ _ eq_refl)).
  reflexivity.
Defined.

(** C1 as stated fails: the text has no isolated run of 4 to 8 digits,
    and the whole of it is written to the clipboard. *)
Lemma security_code_123_is_copied :
  isolated_runs (py "Security code is 123.") = [] /\
  option_map snd
    (run ClientRunner
       [EvStart; EvConnected;
        EvFrame (frame "text" "Security code is 123.")
                (loads "text" "Security code is 123.") true])
  = Some [SetStatus connecting; Connect; SetStatus connected;
          Copy (py "Security code is 123.")].
Proof. split; vm_compute; reflexivity. Qed.

Lemma text_without_code_is_copied_witness :
  step receiving
    (EvFrame (frame "text" "Security code is 123.")
             (loads "text" "Security code is 123.") true)
  = Some (receiving, [Copy (py "Security code is 123.")]).
Proof.
  unfold loads.
  exact (text_without_code_is_copied receiving
           (frame "text" "Security code is 123.")
           [(py "text", PyStr (py "Security code is 123."))]
           (py "{'" ++ py "text" ++ py "': '" ++ py "Security code is 123."
              ++ py "'}")
           (py "Security code is 123.") eq_refl eq_refl eq_refl eq_refl).
Defined.

(** C5 as stated fails: the frame is an object without a [text] member;
    the text handed to extraction is empty, not the frame, and the code
    that the frame as raw text would give is not written. *)
Lemma frame_without_text_is_dropped :
  has_text (loads "note" "1234") = false /\
  frame_text (frame "note" "1234") (loads "note" "1234") = [] /\
  frame_text (frame "note" "1234") (loads "note" "1234") <> frame "note" "1234" /\
  extract_code (frame "note" "1234") = py "1234" /\
  option_map snd
    (run ClientRunner
       [EvStart; EvConnected;
        EvFrame (frame "note" "1234") (loads "note" "1234") true])
  = Some [SetStatus connecting; Connect; SetStatus connected].
Proof.
  split; [reflexivity|]. split; [reflexivity|].
  split; [vm_compute; discriminate|].
  split; vm_compute; reflexivity.
Qed.

Lemma frame_text_cases_witness :
  frame_text (py "hello 1234") None = py "hello 1234" /\
  step receiving (EvFrame (py "hello 1234") None true)
  = Some (receiving, [Copy (py "1234")]).
Proof.
  split.
  - apply (proj1 (frame_text_cases (py "hello 1234") None)). reflexivity.
  - exact (proj2 (proj2 (proj2 (proj2
             (frame_text_cases (py "hello 1234") None))))
             receiving eq_refl eq_refl).
Defined.

End Examples.

(** ** More examples *)

Section MoreExamples.
Local Existing Instance Basic.tables.
Import Example.

Lemma extract_code_is_a_run_witness :
  isolated_runs (py " Ref 20260215, pin 7788 ") <> [] /\
  exists i n, In (i, n) (isolated_runs (py " Ref 20260215, pin 7788 ")) /\
    extract_code (py " Ref 20260215, pin 7788 ")
    = slice (py " Ref 20260215, pin 7788 ") i (i + n) /\
    str_isdecimal (extract_code (py " Ref 20260215, pin 7788 ")) = true /\
    List.length (extract_code (py " Ref 20260215, pin 7788 ")) = n /\
    4 <= n <= 8.
Proof.
  assert (isolated_runs (py " Ref 20260215, pin 7788 ") <> []) as H
    by (vm_compute; discriminate).
  split; [exact H | exact (extract_code_is_a_run _ H)].
Defined.

Lemma fallback_takes_first_run_witness :
  extract_code (py " Ref 20260215, pin 7788 ")
  = slice (strip (py " Ref 20260215, pin 7788 ")) 4 (4 + 8).
Proof.
  apply fallback_takes_first_run.
  - intros i' n' H. apply isolated_runs_spec in H. vm_compute in H.
    destruct H as [[= <- <-]|[[= <- <-]|[]]]; vm_compute; reflexivity.
  - vm_compute. reflexivity.
  - intros i' n' H. apply isolated_runs_spec in H. vm_compute in H.
    destruct H as [[= <- <-]|[[= <- <-]|[]]]; lia.
Defined.

Lemma keyword_run_preferred_witness :
  isolated_run (strip (py "订单号20260215，验证码654321。")) 15 6 = true /\
  near_keyword (strip (py "订单号20260215，验证码654321。")) 15 6 = true /\
  exists i n,
    isolated_run (strip (py "订单号20260215，验证码654321。")) i n = true /\
    near_keyword (strip (py "订单号20260215，验证码654321。")) i n = true /\
    extract_code (py "订单号20260215，验证码654321。")
    = slice (strip (py "订单号20260215，验证码654321。")) i (i + n).
Proof.
  split; [vm_compute; reflexivity|]. split; [vm_compute; reflexivity|].
  apply (keyword_run_preferred (py "订单号20260215，验证码654321。") 15 6);
    vm_compute; reflexivity.
Defined.

Lemma retry_within_bounds_witness :
  exists r tr,
    run ClientRunner
      [EvStart; EvConnectFailed; EvWoken; EvConnectFailed; EvWoken;
       EvConnectFailed; EvWoken; EvConnectFailed; EvWoken; EvConnectFailed;
       EvWoken; EvConnectFailed; EvWoken; EvConnectFailed] = Some (r, tr) /\
    retry r = 30%Z /\ (1 <= retry r <= 30)%Z /\ Forall wait_in_bounds tr.
Proof.
  eexists. eexists.
  match goal with |- ?A /\ _ => assert A as H by (vm_compute; reflexivity) end.
  split; [exact H|]. split; [reflexivity|].
  exact (retry_within_bounds _ _ _ H).
Defined.

Lemma clipboard_gets_results_witness :
  exists r tr,
    run receiving
      [EvFrame (frame "text" "Use OTP 4831 to sign in.")
               (loads "text" "Use OTP 4831 to sign in.") true;
       EvFrame (py "  ") None true;
       EvFrame (py " hello ") None true] = Some (r, tr) /\
    tr = [Copy (py "4831"); Copy (py "hello")] /\
    Forall copy_is_result tr.
Proof.
  eexists. eexists.
  match goal with |- ?A /\ _ => assert A as H by (vm_compute; reflexivity) end.
  split; [exact H|]. split; [vm_compute; reflexivity|].
  exact (clipboard_gets_results _ _ _ _ H).
Defined.

Lemma no_reconnect_without_wait_witness :
  exists r tr,
    run ClientRunner
      [EvStart; EvConnected; EvClosed; EvWoken; EvConnectFailed; EvWoken;
       EvConnected] = Some (r, tr) /\
    waits_between_connects true tr = true.
Proof.
  eexists. eexists.
  match goal with |- ?A /\ _ => assert A as H by (vm_compute; reflexivity) end.
  split; [exact H|]. exact (no_reconnect_without_wait _ _ _ H).
Defined.

Lemma frames_in_order_witness :
  flat_map copy_of
    [(frame "text" "code 1111", loads "text" "code 1111");
     (py "not json 2222", None);
     (frame "text" " ", loads "text" " ");
     (frame "text" "3333 is your code", loads "text" "3333 is your code")]
  = [Copy (py "1111"); Copy (py "2222"); Copy (py "3333")] /\
  run receiving
    (map frame_event
       [(frame "text" "code 1111", loads "text" "code 1111");
        (py "not json 2222", None);
        (frame "text" " ", loads "text" " ");
        (frame "text" "3333 is your code", loads "text" "3333 is your code")])
  = Some (receiving,
          flat_map copy_of
            [(frame "text" "code 1111", loads "text" "code 1111");
             (py "not json 2222", None);
             (frame "text" " ", loads "text" " ");
             (frame "text" "3333 is your code",
              loads "text" "3333 is your code")]).
Proof.
  split; [vm_compute; reflexivity|].
  exact (frames_in_order receiving _ eq_refl eq_refl).
Defined.

Lemma after_stop_only_status_witness :
  exists r tr,
    run (set_stop (set_status ClientRunner connecting Connecting))
      [EvConnected; EvFrame (py "code 1234") None true; EvStop] = Some (r, tr) /\
    tr = [SetStatus connected; SetStatus stopped] /\
    stop_event r = true /\
    Forall (fun e => e = SetStatus connected \/ e = SetStatus stopped) tr.
Proof.
  eexists. eexists.
  match goal with |- ?A /\ _ => assert A as H by (vm_compute; reflexivity) end.
  split; [exact H|]. split; [reflexivity|].
  exact (after_stop_only_status
           (set_stop (set_status ClientRunner connecting Connecting))
           _ _ _ eq_refl H).
Defined.

Lemma status_tracks_phase_witness :
  exists r tr,
    run ClientRunner [EvStart; EvConnected; EvBroken] = Some (r, tr) /\
    _status r = error /\ pc r = Sleeping /\ ws r = false /\
    _status r = last_status idle tr /\ consistent r /\ ws_inv r.
Proof.
  eexists. eexists.
  match goal with |- ?A /\ _ => assert A as H by (vm_compute; reflexivity) end.
  split; [exact H|]. do 3 (split; [reflexivity|]).
  exact (status_tracks_phase _ _ _ H).
Defined.

Lemma pick_not_blank_witness :
  is_None (pick [(py "room", py_None); (py "base", PyStr (py "  "))]
                [(py "CP_ROOM", py "kitchen")]
                (py "room") (py "CP_ROOM") (PyStr (py "YOUR_ROOM_KEY"))) = false /\
  not_blank (pick [(py "room", py_None); (py "base", PyStr (py "  "))]
                  [(py "CP_ROOM", py "kitchen")]
                  (py "room") (py "CP_ROOM") (PyStr (py "YOUR_ROOM_KEY"))) = true.
Proof.
  apply pick_not_blank; reflexivity.
Defined.

Lemma settings_not_blank_witness :
  strip (BASE (resolve (map Basic.lower)
                 [(py "base", PyStr (py " "))] [(py "CP_ROOM", py "kitchen")]))
  <> [] /\
  TOKEN (resolve (map Basic.lower)
           [(py "base", PyStr (py " "))] [(py "CP_ROOM", py "kitchen")])
  = py "kitchen".
Proof.
  assert (strip (py "example.com") <> []) as H1 by (vm_compute; discriminate).
  assert (strip (py "YOUR_ROOM_KEY") <> []) as H2 by (vm_compute; discriminate).
  destruct (settings_not_blank (map Basic.lower)
              [(py "base", PyStr (py " "))] [(py "CP_ROOM", py "kitchen")]
              H1 H2) as (Hb & _ & _ & Ht).
  split; [exact Hb|]. rewrite (Ht eq_refl eq_refl). vm_compute. reflexivity.
Defined.

End MoreExamples.
